(** * quantpak: indicators, returns and the strategy/signal framework

    A shallow embedding of

    - [quantpak/data/processors.py]   ([DataProcessor.clean_data],
      [ReturnCalculator], [TechnicalIndicators]),
    - [quantpak/strategies/base.py]   ([Signal], [BaseStrategy]),
    - [examples/basic_strategy_example.py] ([MovingAverageCrossover]),

    together with the part of the pandas API these files call
    ([rolling().mean()], [rolling().std()], [ewm(span).mean()], [mean],
    [std], [pct_change], [cumprod], [diff], [shift], [where], [iloc],
    [concat], [tail], [to_frame().T], [dropna], [fillna]),
    modelled after pandas 1.x/2.x, the versions the package is written for.
    Not modelled: [resample_data] (calendar resampling), [log_returns]
    (logarithms) and the script [main] of the example (network, printing
    and plotting).

    Floating point values are modelled by exact rationals extended with
    the IEEE special values: every arithmetic operation is exact, there is
    no rounding and no overflow, and the two signed zeros are identified.
    Statements "up to floating-point tolerance" are therefore statements of
    exact equality here. What is stated about the values of an indicator
    holds over exact arithmetic; what is stated about the shape of a
    result (its length, where it is missing, what is raised) does not
    depend on the arithmetic. The module [Double] holds IEEE doubles, to
    show where the double computation of the code leaves the exact one.

    A method of a strategy object is a function from the attributes of
    [self] to an outcome (a value or a raised exception) and the attributes
    afterwards. *)

From Stdlib Require Import QArith Qcanon ZArith Lia.
From Stdlib Require SpecFloat.
From stdpp Require Import gmap strings list numbers.

#[local] Open Scope Z_scope.

(* ===================================================================== *)
(** * Python floats *)
(* ===================================================================== *)

Module Float.

Inductive float : Type :=
| Fin (q : Qc)      (* a finite value *)
| PInf              (* +inf *)
| NInf              (* -inf *)
| NaN.              (* nan: pandas' marker of a missing value *)

#[global] Instance float_eq_dec : EqDecision float.
Proof. solve_decision. Defined.

Definition of_Z (z : Z) : float := Fin (Qc_of_Z z).

(** [x != x] *)
Definition isnan (x : float) : bool :=
  match x with NaN => true | _ => false end.

Definition isinf (x : float) : bool :=
  match x with PInf | NInf => true | _ => false end.

Definition neg (x : float) : float :=
  match x with
  | Fin q => Fin (- q)%Qc
  | PInf => NInf
  | NInf => PInf
  | NaN => NaN
  end.

Definition add (x y : float) : float :=
  match x, y with
  | NaN, _ | _, NaN => NaN
  | PInf, NInf | NInf, PInf => NaN
  | PInf, _ | _, PInf => PInf
  | NInf, _ | _, NInf => NInf
  | Fin a, Fin b => Fin (a + b)%Qc
  end.

Definition sub (x y : float) : float := add x (neg y).

(** The sign of a value that is neither nan nor zero. *)
Definition is_positive (x : float) : bool :=
  match x with
  | Fin q => bool_decide (0 < q)%Qc
  | PInf => true
  | _ => false
  end.

Definition is_zero (x : float) : bool :=
  match x with Fin q => bool_decide (q = 0%Qc) | _ => false end.

Definition signed_inf (pos : bool) : float := if pos then PInf else NInf.

Definition mul (x y : float) : float :=
  match x, y with
  | NaN, _ | _, NaN => NaN
  | Fin a, Fin b => Fin (a * b)%Qc
  | _, _ =>
      (* at least one infinity *)
      if is_zero x || is_zero y then NaN
      else signed_inf (Bool.eqb (is_positive x) (is_positive y))
  end.

(** Division never raises on floats held in a numpy array: a zero
    divisor yields an infinity, or nan for [0/0]. *)
Definition div (x y : float) : float :=
  match x, y with
  | NaN, _ | _, NaN => NaN
  | Fin a, Fin b =>
      if bool_decide (b = 0%Qc) then
        if bool_decide (a = 0%Qc) then NaN
        else signed_inf (bool_decide (0 < a)%Qc)
      else Fin (a / b)%Qc
  | Fin _, _ => Fin 0%Qc
  | _, Fin b =>
      signed_inf (Bool.eqb (is_positive x) (bool_decide (0 <= b)%Qc))
  | _, _ => NaN
  end.

(** Comparisons: every comparison with nan is false. *)
Definition ltb (x y : float) : bool :=
  match x, y with
  | NaN, _ | _, NaN => false
  | Fin a, Fin b => bool_decide (a < b)%Qc
  | NInf, NInf => false
  | NInf, _ => true
  | _, PInf => negb (isinf x && is_positive x)
  | _, _ => false
  end.

Definition leb (x y : float) : bool :=
  match x, y with
  | NaN, _ | _, NaN => false
  | Fin a, Fin b => bool_decide (a <= b)%Qc
  | NInf, _ => true
  | _, PInf => true
  | _, _ => false
  end.

Definition gtb (x y : float) : bool := ltb y x.
Definition geb (x y : float) : bool := leb y x.

(** [x == y]: nan differs from everything, itself included. *)
Definition eqb (x y : float) : bool :=
  negb (isnan x) && bool_decide (x = y).

Definition neqb (x y : float) : bool := negb (eqb x y).

End Float.

Export Float.

Declare Scope float_scope.
Delimit Scope float_scope with float.
Bind Scope float_scope with float.
Infix "+" := Float.add : float_scope.
Infix "-" := Float.sub : float_scope.
Infix "*" := Float.mul : float_scope.
Infix "/" := Float.div : float_scope.
Notation "- x" := (Float.neg x) : float_scope.

(* ===================================================================== *)
(** * Double precision *)
(* ===================================================================== *)

(** IEEE 754 binary64 values and operations, as the Standard Library
    specifies them ([prec = 53], [emax = 1024]). Unlike the exact values
    above, these round and overflow; they serve to show where the code,
    which computes in doubles, leaves the exact model. *)
Module Double.

Definition double : Type := SpecFloat.spec_float.

Definition nan : double := SpecFloat.S754_nan.
Definition inf : double := SpecFloat.S754_infinity false.
Definition zero : double := SpecFloat.S754_zero false.

(** The double nearest to [m * 2^e]. *)
Definition of_Z (m e : Z) : double := SpecFloat.binary_normalize 53 1024 m e false.

Definition add : double → double → double := SpecFloat.SFadd 53 1024.
Definition sub : double → double → double := SpecFloat.SFsub 53 1024.
Definition div : double → double → double := SpecFloat.SFdiv 53 1024.
Definition ltb : double → double → bool := SpecFloat.SFltb.
Definition eqb : double → double → bool := SpecFloat.SFeqb.

Definition isnan (x : double) : bool :=
  match x with SpecFloat.S754_nan => true | _ => false end.

Definition isinf (x : double) : bool :=
  match x with SpecFloat.S754_infinity _ => true | _ => false end.

Definition signbit (x : double) : bool :=
  match x with
  | SpecFloat.S754_zero s | SpecFloat.S754_infinity s
  | SpecFloat.S754_finite s _ _ => s
  | SpecFloat.S754_nan => false
  end.

(** The number a finite double stands for. *)
Definition exact (x : double) : option Q :=
  match x with
  | SpecFloat.S754_zero _ => Some 0%Q
  | SpecFloat.S754_finite s m e =>
      Some ((if s then -1 else 1) * inject_Z (Z.pos m) * 2 ^ e)%Q
  | _ => None
  end.

(** The state of pandas' [roll_mean]: the running sum of the window,
    kept with Kahan compensation. *)
Record mean_state : Type := mkMeanState {
  nobs : nat;
  sum_x : double;
  neg_ct : nat;
  compensation : double;
  num_consecutive_same_value : nat;
  prev_value : double;
}.

(** [add_mean]: one more value enters the window. *)
Definition add_mean (st : mean_state) (val : double) : mean_state :=
  if isnan val then st
  else
    let y := sub val (compensation st) in
    let t := add (sum_x st) y in
    {| nobs := S (nobs st);
       sum_x := t;
       neg_ct := if signbit val then S (neg_ct st) else neg_ct st;
       compensation := sub (sub t (sum_x st)) y;
       num_consecutive_same_value :=
         if eqb val (prev_value st) then S (num_consecutive_same_value st)
         else 1%nat;
       prev_value := val |}.

(** [calc_mean]: the output for the current window. *)
Definition calc_mean (minp : nat) (st : mean_state) : double :=
  if (minp <=? nobs st)%nat && (0 <? nobs st)%nat then
    let result := div (sum_x st) (of_Z (Z.of_nat (nobs st)) 0) in
    if (nobs st <=? num_consecutive_same_value st)%nat then prev_value st
    else if (neg_ct st =? 0)%nat && ltb result zero then zero
    else if (neg_ct st =? nobs st)%nat && ltb zero result then zero
    else result
  else nan.

(** [rolling(window).mean()] at a position [i < window]: the window has
    not started to slide, so the state is that of adding
    [values[0], ..., values[i]] in turn (infinities enter as nan). *)
Definition mean_head (values : list double) (window i : nat) : double :=
  let vals := (λ x, if isinf x then nan else x) <$> take (S i) values in
  let init :=
    {| nobs := 0; sum_x := zero; neg_ct := 0; compensation := zero;
       num_consecutive_same_value := 0; prev_value := default nan (vals !! 0%nat) |} in
  calc_mean window (foldl add_mean init vals).

End Double.

(* ===================================================================== *)
(** * Python exceptions *)
(* ===================================================================== *)

Inductive exn : Type :=
| ValueError (msg : string)
| TypeError (msg : string)
| KeyError (key : string)
| IndexError (msg : string)
| OverflowError.   (* raised where a Python integer does not convert to a
                      C integer; its message is not modelled *)

Inductive result (A : Type) : Type :=
| Ok (a : A)
| Raise (e : exn).

Arguments Ok {A} a.
Arguments Raise {A} e.

#[global] Instance exn_eq_dec : EqDecision exn.
Proof. solve_decision. Defined.

#[global] Instance result_eq_dec `{EqDecision A} : EqDecision (result A).
Proof. solve_decision. Defined.

#[global] Instance result_ret : MRet result := @Ok.
#[global] Instance result_bind : MBind result := λ A B f m,
  match m with
  | Ok a => f a
  | Raise e => Raise e
  end.

(** A Python value that can be stored in a strategy's parameter mapping:
    the example strategy stores integers, and a missing key reads as
    [None]. *)
Inductive value : Type :=
| VNone
| VInt (z : Z).

#[global] Instance value_eq_dec : EqDecision value.
Proof. solve_decision. Defined.

(* ===================================================================== *)
(** * The pandas operations used by the package *)
(* ===================================================================== *)

Module Pandas.

(** A numeric [pd.Series], by position. *)
Abbreviation Series := (list float).

(** [range(start, stop)] *)
Definition range (start stop : Z) : list Z :=
  (λ k : nat, start + Z.of_nat k) <$> seq 0 (Z.to_nat (stop - start)).

(** [s.iloc[i]]: positional access; a negative position counts from
    the end, anything outside the series is an [IndexError]. *)
Definition iloc {A} (s : list A) (i : Z) : result A :=
  let n := Z.of_nat (length s) in
  let j := if i <? 0 then n + i else i in
  if (0 <=? j) && (j <? n) then
    match s !! Z.to_nat j with
    | Some x => Ok x
    | None => Raise (IndexError "single positional indexer is out-of-bounds")
    end
  else Raise (IndexError "single positional indexer is out-of-bounds").

(** [s.shift(1)]: every entry moves one position down, the first entry
    becomes missing and the last one is dropped. *)
Definition shift (s : Series) : Series := take (length s) (NaN :: s).

(** [s.diff()] is [s - s.shift(1)]. *)
Definition diff (s : Series) : Series :=
  zip_with Float.sub s (shift s).

(** [s.where(cond, other)] with a scalar [other]: keep the entries at
    which the condition holds, replace the others. *)
Definition where_ (s : Series) (cond : float → bool) (other : float) : Series :=
  (λ x, if cond x then x else other) <$> s.

(** Forward fill: a missing entry takes the last entry seen that is not
    missing; leading missing entries stay. *)
Fixpoint ffill_from (last : float) (s : Series) : Series :=
  match s with
  | [] => []
  | x :: s' =>
      let y := if isnan x then last else x in
      y :: ffill_from y s'
  end.

Definition ffill (s : Series) : Series := ffill_from NaN s.

(** [s.pct_change()]: with the default [fill_method='pad'] the series
    is forward filled, then [data / data.shift(1) - 1]. *)
Definition pct_change (s : Series) : Series :=
  let data := ffill s in
  (λ r, r - of_Z 1)%float <$> zip_with Float.div data (shift data).



(** ** [s.rolling(window=w)] *)

Record Rolling : Type := mkRolling {
  obj : Series;
  window : nat;
  min_periods : nat;
}.

(** The constructor rejects a window that is not a non-negative integer;
    [min_periods] defaults to the window size. *)
Definition rolling (s : Series) (w : value) : result Rolling :=
  match w with
  | VInt w =>
      if w <? 0 then Raise (ValueError "window must be an integer 0 or greater")
      else Ok {| obj := s; window := Z.to_nat w; min_periods := Z.to_nat w |}
  | VNone => Raise (ValueError "window must be an integer 0 or greater")
  end.

(** The entries under the window that ends at position [i]:
    [obj[max(0, i+1-window) : i+1]]. *)
Definition window_at (r : Rolling) (i : nat) : Series :=
  let stop := S i in
  let start := (stop - window r)%nat in
  take (stop - start) (drop start (obj r)).

(** Window aggregations first turn the infinities of their input into
    missing values. *)
Definition prep_values (s : Series) : Series :=
  (λ x, if isinf x then NaN else x) <$> s.

(** The number held by an entry that is not missing. *)
Definition observation (x : float) : option Qc :=
  match x with Fin q => Some q | _ => None end.

Definition Qc_sum (l : list Qc) : Qc := foldr Qcplus 0%Qc l.

(** One position of [.mean()]: the mean of the observations under the
    window if there are at least [min_periods] of them (and at least
    one), a missing value otherwise. *)
Definition mean_at (r : Rolling) (i : nat) : float :=
  let obs := omap observation (prep_values (window_at r i)) in
  let nobs := length obs in
  if (min_periods r <=? nobs)%nat && (0 <? nobs)%nat
  then Fin (Qc_sum obs / Qc_of_Z (Z.of_nat nobs))%Qc
  else NaN.

(** The window aggregation [roll_mean], position by position. *)
Definition roll_mean (r : Rolling) : Series :=
  mean_at r <$> seq 0 (length (obj r)).

(** What every aggregation of a rolling window does first. An empty
    series is returned as it is; for any other, the window bounds are
    computed in 64-bit integers, and a window size of [2^63] or more does
    not convert: the call raises [OverflowError]. *)
Definition window_bounds (r : Rolling) : result unit :=
  if bool_decide (obj r = []) || (Z.of_nat (window r) <? 2 ^ 63)
  then Ok tt
  else Raise OverflowError.

(** [.mean()] of a rolling window. *)
Definition mean (r : Rolling) : result Series :=
  _ ← window_bounds r; mret (roll_mean r).

(** ** [s.ewm(span=sp)] *)

Record ExponentialMovingWindow : Type := mkEWM {
  ewm_obj : Series;
  com : Qc;                (* centre of mass, [(span - 1) / 2] *)
  ewm_min_periods : nat;   (* default 0 *)
  adjust : bool;           (* default True *)
  ignore_na : bool;        (* default False *)
}.

Definition ewm (s : Series) (span : value) : result ExponentialMovingWindow :=
  match span with
  | VInt sp =>
      if sp <? 1 then Raise (ValueError "span must satisfy: span >= 1")
      else Ok {| ewm_obj := s;
                 com := ((Qc_of_Z sp - 1) / 2)%Qc;
                 ewm_min_periods := 0;
                 adjust := true;
                 ignore_na := false |}
  | VNone =>
      Raise (ValueError "Must pass one of comass, span, halflife, or alpha")
  end.

(** The state of the single pass that computes the weighted mean. *)
Record ewm_state : Type := mkEwmState {
  weighted : float;   (* the current average *)
  old_wt : Qc;        (* the total weight carried by [weighted] *)
  nobs : nat;         (* observations seen so far *)
}.

(** One iteration of the pass, on the entry [cur]. *)
Definition ewm_step (e : ExponentialMovingWindow) (st : ewm_state) (cur : float)
  : ewm_state :=
  let alpha := (1 / (1 + com e))%Qc in
  let old_wt_factor := (1 - alpha)%Qc in
  let new_wt := if adjust e then 1%Qc else alpha in
  let is_observation := negb (isnan cur) in
  let nobs' := (nobs st + (if is_observation then 1 else 0))%nat in
  if negb (isnan (weighted st)) then
    if is_observation || negb (ignore_na e) then
      let old_wt' := (old_wt st * old_wt_factor)%Qc in
      if is_observation then
        let weighted' :=
          if Float.neqb (weighted st) cur then
            ((Fin old_wt' * weighted st + Fin new_wt * cur)
               / Fin (old_wt' + new_wt)%Qc)%float
          else weighted st in
        {| weighted := weighted';
           old_wt := if adjust e then (old_wt' + new_wt)%Qc else 1%Qc;
           nobs := nobs' |}
      else {| weighted := weighted st; old_wt := old_wt'; nobs := nobs' |}
    else {| weighted := weighted st; old_wt := old_wt st; nobs := nobs' |}
  else if is_observation then
    {| weighted := cur; old_wt := old_wt st; nobs := nobs' |}
  else {| weighted := weighted st; old_wt := old_wt st; nobs := nobs' |}.

Definition ewm_output (minp : nat) (st : ewm_state) : float :=
  if (minp <=? nobs st)%nat then weighted st else NaN.

Fixpoint ewm_loop (e : ExponentialMovingWindow) (minp : nat)
    (st : ewm_state) (vals : Series) : Series :=
  match vals with
  | [] => []
  | cur :: vals' =>
      let st' := ewm_step e st cur in
      ewm_output minp st' :: ewm_loop e minp st' vals'
  end.

(** [.mean()] of an exponentially weighted window. *)
Definition ewm_mean (e : ExponentialMovingWindow) : Series :=
  let minp := Nat.max (ewm_min_periods e) 1 in
  match prep_values (ewm_obj e) with
  | [] => []
  | x0 :: vals =>
      let st := {| weighted := x0;
                   old_wt := 1%Qc;
                   nobs := if isnan x0 then 0%nat else 1%nat |} in
      ewm_output minp st :: ewm_loop e minp st vals
  end.

(** ** Data frames *)

(** A frame: the row labels (timestamps) and the named columns, each as
    long as the index. *)
Record DataFrame : Type := mkDataFrame {
  index : list Z;
  columns : gmap string Series;
}.

Definition wf_frame (df : DataFrame) : Prop :=
  ∀ c s, columns df !! c = Some s → length s = length (index df).

(** [len(df)] *)
Definition len (df : DataFrame) : Z := Z.of_nat (length (index df)).

(** [df[c]] *)
Definition getitem (df : DataFrame) (c : string) : result Series :=
  match columns df !! c with
  | Some s => Ok s
  | None => Raise (KeyError c)
  end.

(** [df.tail(n)]: the last [n] rows. *)
Definition tail (n : nat) (df : DataFrame) : DataFrame :=
  let last {A} (l : list A) := drop (length l - n) l in
  {| index := last (index df); columns := last <$> columns df |}.

(** A [pd.Series] holding one record: its [name] becomes the row label,
    its entries are labelled by field. *)
Record RowSeries : Type := mkRowSeries {
  name : Z;
  fields : gmap string float;
}.

(** [rec.to_frame().T]: the one-row frame of a record. *)
Definition to_frame_T (r : RowSeries) : DataFrame :=
  {| index := [name r]; columns := (λ x, [x]) <$> fields r |}.

(** Row-wise concatenation of two frames: the columns are the union of
    both, a frame that lacks a column contributes missing values. *)
Definition append (a b : DataFrame) : DataFrame :=
  let missing (df : DataFrame) := replicate (length (index df)) NaN in
  {| index := index a ++ index b;
     columns :=
       merge (λ oa ob,
                match oa, ob with
                | Some x, Some y => Some (x ++ y)
                | Some x, None => Some (x ++ missing b)
                | None, Some y => Some (missing a ++ y)
                | None, None => None
                end) (columns a) (columns b) |}.

(** [pd.concat(objs)]: [None] entries are dropped silently; it is an
    error to pass nothing else. *)
Definition concat (objs : list (option DataFrame)) : result DataFrame :=
  match omap id objs with
  | [] => Raise (ValueError "All objects passed were None")
  | df :: dfs => Ok (foldl append df dfs)
  end.

(** The rows at the positions [keep], in that order. *)
Definition take_rows {A} (keep : list nat) (l : list A) : list A :=
  omap (λ i, l !! i) keep.

(** Whether every column is missing at row [i]. *)
Definition all_missing (df : DataFrame) (i : nat) : bool :=
  bool_decide
    (map_Forall (λ _ s, from_option isnan true (s !! i) = true) (columns df)).

(** [df.dropna(how='all')]: the rows that hold at least one value. *)
Definition dropna_all (df : DataFrame) : DataFrame :=
  let keep :=
    filter (λ i, all_missing df i = false) (seq 0 (length (index df))) in
  {| index := take_rows keep (index df);
     columns := take_rows keep <$> columns df |}.

(** [s.fillna(v)]: a missing entry becomes [v]. *)
Definition fillna (v : float) (s : Series) : Series :=
  (λ x, if isnan x then v else x) <$> s.

(** [df[c] = s] *)
Definition setitem (df : DataFrame) (c : string) (s : Series) : DataFrame :=
  {| index := index df; columns := <[c := s]> (columns df) |}.

End Pandas.

Import Pandas.

(* ===================================================================== *)
(** * quantpak/data/processors.py *)
(* ===================================================================== *)

Module DataProcessor.

Definition price_cols : list string :=
  ["Open"; "High"; "Low"; "Close"; "Adj Close"].

(** One round of the loop over the price columns:
    [if col in df.columns: df[col] = df[col].fillna(method='ffill')]. *)
Definition fill_price (df : DataFrame) (col : string) : DataFrame :=
  match columns df !! col with
  | Some s => setitem df col (ffill s)
  | None => df
  end.

(** [clean_data]: drop the rows without any value, forward fill the price
    columns that are present, fill the missing volumes with 0. The frame
    passed in is not modified. *)
Definition clean_data (df : DataFrame) : DataFrame :=
  let df := dropna_all df in
  let df := foldl fill_price df price_cols in
  match columns df !! "Volume" with
  | Some s => setitem df "Volume" (fillna (of_Z 0) s)
  | None => df
  end.

End DataProcessor.

Module ReturnCalculator.

(** [prices.pct_change()] *)
Definition simple_returns (prices : Series) : Series :=
  pct_change prices.


End ReturnCalculator.

Module TechnicalIndicators.

(** [prices.rolling(window=window).mean()] *)
Definition sma (prices : Series) (window : value) : result Series :=
  r ← rolling prices window; mean r.

(** [prices.ewm(span=window).mean()] *)
Definition ema (prices : Series) (window : value) : result Series :=
  e ← ewm prices window; mret (ewm_mean e).

(** The two rolling means of [rsi]:
    [(delta.where(delta > 0, 0)).rolling(window=window).mean()] and
    [(-delta.where(delta < 0, 0)).rolling(window=window).mean()]. *)
Definition rsi_gain (delta : Series) (window : value) : result Series :=
  r ← rolling (where_ delta (λ d, Float.gtb d (of_Z 0)) (of_Z 0)) window;
  mean r.

Definition rsi_loss (delta : Series) (window : value) : result Series :=
  r ← rolling (Float.neg <$> where_ delta (λ d, Float.ltb d (of_Z 0)) (of_Z 0))
        window;
  mean r.

Definition rsi (prices : Series) (window : value) : result Series :=
  let delta := diff prices in
  gain ← rsi_gain delta window;
  loss ← rsi_loss delta window;
  let rs := zip_with Float.div gain loss in
  let rsi := (λ r, of_Z 100 - (of_Z 100 / (of_Z 1 + r)))%float <$> rs in
  mret rsi.

(** [macd]: the three named series; the spans are validated in the
    order in which the three [ewm] calls are made. *)
Definition macd (prices : Series) (fast slow signal : value)
  : result (gmap string Series) :=
  e_fast ← ewm prices fast;
  let ema_fast := ewm_mean e_fast in
  e_slow ← ewm prices slow;
  let ema_slow := ewm_mean e_slow in
  let macd_line := zip_with Float.sub ema_fast ema_slow in
  e_signal ← ewm macd_line signal;
  let signal_line := ewm_mean e_signal in
  let histogram := zip_with Float.sub macd_line signal_line in
  mret {[ "macd" := macd_line; "signal" := signal_line; "histogram" := histogram ]}.

End TechnicalIndicators.

(* ===================================================================== *)
(** * quantpak/strategies/base.py *)
(* ===================================================================== *)

Inductive SignalType : Type := BUY | SELL | HOLD.

Definition SignalType_value (t : SignalType) : Z :=
  match t with BUY => 1 | SELL => -1 | HOLD => 0 end.

#[global] Instance SignalType_eq_dec : EqDecision SignalType.
Proof. solve_decision. Defined.

Record Signal : Type := mkSignal {
  timestamp : Z;
  symbol : string;
  signal_type : SignalType;
  strength : float;
  price : option float;
  metadata : option (gmap string string);
}.

#[global] Instance Signal_eq_dec : EqDecision Signal.
Proof. solve_decision. Defined.

Module BaseStrategy.

(** The attributes of a strategy object. *)
Record state : Type := mkState {
  name : string;
  parameters : gmap string value;
  signals : list Signal;
  data : option DataFrame;
  initialized : bool;
}.

(** A method: it reads and writes the attributes of [self] and either
    returns or raises; assignments made before a [raise] stay. *)
Definition M (A : Type) : Type := state → result A * state.

#[global] Instance M_ret : MRet M := λ A a self, (Ok a, self).
#[global] Instance M_bind : MBind M := λ A B f m self,
  match m self with
  | (Ok a, self') => f a self'
  | (Raise e, self') => (Raise e, self')
  end.

Definition raise {A} (e : exn) : M A := λ self, (Raise e, self).
Definition lift {A} (r : result A) : M A := λ self, (r, self).
Definition gets {A} (f : state → A) : M A := λ self, (Ok (f self), self).
Definition modify (f : state → state) : M unit := λ self, (Ok tt, f self).

(** [for x in l: acc = body(x, acc)] *)
Fixpoint for_ {A B} (l : list A) (body : A → B → M B) (acc : B) : M B :=
  match l with
  | [] => mret acc
  | x :: l' => acc' ← body x acc; for_ l' body acc'
  end.

(** A method is an _observer_ when it leaves every attribute of [self]
    as it found it, and when its outcome depends on no attribute other
    than [parameters]. *)
Definition observer {A} (m : M A) : Prop :=
  ∀ self,
    (m self).2 = self ∧
    ∀ self', parameters self' = parameters self → (m self').1 = (m self).1.

(** [__init__] *)
Definition init (name : string) (parameters : option (gmap string value)) : state :=
  {| name := name;
     parameters := default ∅ parameters;
     signals := [];
     data := None;
     initialized := false |}.

(** The abstract method every concrete strategy supplies. *)
Class Strategy : Type := {
  generate_signals : DataFrame → M (list Signal);
}.

Definition initialize (d : DataFrame) : M unit :=
  modify (λ self, {| name := name self;
                     parameters := parameters self;
                     signals := signals self;
                     data := Some d;
                     initialized := true |}).

Definition set_data (d : DataFrame) : M unit :=
  modify (λ self, {| name := name self;
                     parameters := parameters self;
                     signals := signals self;
                     data := Some d;
                     initialized := initialized self |}).

Definition uninitialized_msg : string :=
  "Strategy must be initialized before updating".

Definition update `{Strategy} (new_data : RowSeries) : M (option Signal) :=
  ready ← gets initialized;
  if negb ready then raise (ValueError uninitialized_msg)
  else
    old ← gets data;
    d ← lift (concat [old; Some (to_frame_T new_data)]);
    _ ← set_data d;
    sigs ← generate_signals (tail 1 d);
    mret (head sigs).

Definition get_parameter (key : string) (dflt : value) : M value :=
  gets (λ self, default dflt (parameters self !! key)).

Definition set_parameter (key : string) (v : value) : M unit :=
  modify (λ self, {| name := name self;
                     parameters := <[key := v]> (parameters self);
                     signals := signals self;
                     data := data self;
                     initialized := initialized self |}).

Definition required_columns : list string :=
  ["Open"; "High"; "Low"; "Close"; "Volume"].

(** [all(col in data.columns for col in required_columns)] *)
Definition validate_data (d : DataFrame) : M bool :=
  mret (forallb (λ col, bool_decide (col ∈ dom (columns d))) required_columns).

(** [calculate_indicators]: the base class adds no indicator, it returns
    a copy of the frame. *)
Definition calculate_indicators (d : DataFrame) : M DataFrame := mret d.

(** One row of the frame that [get_signals_dataframe] builds: the row
    label [timestamp] and the columns [symbol], [signal], [strength] and
    [price]. *)
Record SignalRow : Type := mkSignalRow {
  row_timestamp : Z;
  row_symbol : string;
  row_signal : Z;
  row_strength : float;
  row_price : option float;
}.

(** [get_signals_dataframe]: one row per collected signal, in order; the
    empty frame when there is none. The method only reads [self]. *)
Definition get_signals_dataframe (self : state) : list SignalRow :=
  (λ signal, {| row_timestamp := timestamp signal;
                row_symbol := symbol signal;
                row_signal := SignalType_value (signal_type signal);
                row_strength := strength signal;
                row_price := price signal |}) <$> signals self.

(** A number in the summary: [len] gives an [int], a true division a
    [float]. *)
Inductive number : Type :=
| Int (z : Z)
| Float_ (x : float).

(** The outcome of [performance_summary]: the mapping it returns, or the
    one exception its body can raise. *)
Inductive summary_result : Type :=
| Summary (m : gmap string number)
| ZeroDivisionError (msg : string).

(** [len(signals_df[signals_df['signal'] == v])] *)
Definition count_signal (v : Z) (signals_df : list SignalRow) : Z :=
  Z.of_nat (length (filter (λ row, row_signal row = v) signals_df)).

(** [performance_summary]: the entries of the returned mapping are
    evaluated in the order written, the division last. The method only
    reads [self]. *)
Definition performance_summary (self : state) : summary_result :=
  let signals_df := get_signals_dataframe self in
  match signals_df with
  | [] => Summary {[ "total_signals" := Int 0 ]}
  | _ =>
      let total := Z.of_nat (length signals_df) in
      let buy_signals := count_signal 1 signals_df in
      let sell_signals := count_signal (-1) signals_df in
      let finish (frequency : number) :=
        Summary {[ "total_signals" := Int total;
                   "buy_signals" := Int buy_signals;
                   "sell_signals" := Int sell_signals;
                   "signal_frequency" := frequency ]} in
      match data self with
      | Some d =>
          if len d =? 0 then ZeroDivisionError "division by zero"
          else finish (Float_ (of_Z total / of_Z (len d))%float)
      | None => finish (Int 0)
      end
  end.

End BaseStrategy.

(* ===================================================================== *)
(** * examples/basic_strategy_example.py *)
(* ===================================================================== *)

Module MovingAverageCrossover.

Import BaseStrategy TechnicalIndicators.

(** [__init__(short_window=20, long_window=50)] *)
Definition init (short_window long_window : value) : state :=
  BaseStrategy.init "MA Crossover"
    (Some {[ "short_window" := short_window; "long_window" := long_window ]}).

(** The bounds of [range] must be integers. *)
Definition as_int (v : value) : result Z :=
  match v with
  | VInt z => Ok z
  | VNone => Raise (TypeError "'NoneType' object cannot be interpreted as an integer")
  end.

(** [Signal(timestamp=data.index[i], symbol='AAPL', signal_type=ty,
           price=data['Close'].iloc[i], strength=1.0)] *)
Definition make_signal (d : DataFrame) (i : Z) (ty : SignalType) : result Signal :=
  ts ← iloc (index d) i;
  close ← getitem d "Close";
  p ← iloc close i;
  mret {| timestamp := ts;
          symbol := "AAPL";
          signal_type := ty;
          strength := of_Z 1;
          price := Some p;
          metadata := None |}.

(** The body of the [for i in range(long_window, len(data))] loop. *)
Definition loop_body (d : DataFrame) (short_ma long_ma : Series)
    (i : Z) (signals : list Signal) : M (list Signal) :=
  current_short ← lift (iloc short_ma i);
  current_long ← lift (iloc long_ma i);
  prev_short ← lift (iloc short_ma (i - 1));
  prev_long ← lift (iloc long_ma (i - 1));
  if Float.leb prev_short prev_long && Float.gtb current_short current_long then
    (* golden cross *)
    signal ← lift (make_signal d i BUY);
    mret (signals ++ [signal])
  else if Float.geb prev_short prev_long && Float.ltb current_short current_long then
    (* death cross *)
    signal ← lift (make_signal d i SELL);
    mret (signals ++ [signal])
  else mret signals.

Definition generate_signals (d : DataFrame) : M (list Signal) :=
  short_window ← get_parameter "short_window" VNone;
  long_window ← get_parameter "long_window" VNone;
  close_s ← lift (getitem d "Close");
  short_ma ← lift (sma close_s short_window);
  close_l ← lift (getitem d "Close");
  long_ma ← lift (sma close_l long_window);
  start ← lift (as_int long_window);
  for_ (range start (len d)) (loop_body d short_ma long_ma) [].

#[global] Instance strategy : Strategy :=
  {| BaseStrategy.generate_signals := generate_signals |}.

End MovingAverageCrossover.

(* ===================================================================== *)
(** * quantpak/data/processors.py: the functions that take square roots *)
(* ===================================================================== *)

Module Volatility.

Section WithSqrt.

(** [np.sqrt]. The model of floats holds exact rationals and has no
    square root of its own; the functions below take it as a parameter,
    and what is proved about them holds for every function with the
    properties a theorem names. *)
Variable sqrt : float → float.

(** The entries of a series that are not missing. *)
Definition valid (s : Series) : Series := filter (λ x, isnan x = false) s.

Definition total (s : Series) : float := foldr Float.add (Fin 0%Qc) s.

(** [s.mean()], with the default [skipna=True]. *)
Definition series_mean (s : Series) : float :=
  let count := length (valid s) in
  if (0 <? count)%nat then (total (valid s) / of_Z (Z.of_nat count))%float
  else NaN.

(** [s.std()]: the sample standard deviation ([ddof=1]) of the entries
    that are not missing; missing unless there are at least two. *)
Definition series_var (s : Series) : float :=
  let count := length (valid s) in
  if (count <=? 1)%nat then NaN
  else
    let avg := (total (valid s) / of_Z (Z.of_nat count))%float in
    let sqr := (λ x, (avg - x) * (avg - x))%float <$> valid s in
    (total sqr / of_Z (Z.of_nat (count - 1)))%float.

Definition series_std (s : Series) : float := sqrt (series_var s).

(** One position of [.var()] of a rolling window ([ddof=1]): the sample
    variance of the observations under the window if there are at least
    [min_periods] and at least two of them. *)
Definition var_at (r : Rolling) (i : nat) : float :=
  let obs := omap observation (prep_values (window_at r i)) in
  let nobs := length obs in
  if (min_periods r <=? nobs)%nat && (1 <? nobs)%nat then
    let avg := (Qc_sum obs / Qc_of_Z (Z.of_nat nobs))%Qc in
    Fin (Qc_sum ((λ x, (x - avg) * (x - avg))%Qc <$> obs)
         / Qc_of_Z (Z.of_nat (nobs - 1)))%Qc
  else NaN.

(** pandas' [zsqrt]: the square root, with 0 for a negative argument. *)
Definition zsqrt (x : float) : float :=
  if Float.ltb x (of_Z 0) then of_Z 0 else sqrt x.

(** The window aggregation behind [.std()], position by position. *)
Definition roll_std (r : Rolling) : Series :=
  (λ i, zsqrt (var_at r i)) <$> seq 0 (length (obj r)).

(** [.std()] of a rolling window. *)
Definition std (r : Rolling) : result Series :=
  _ ← window_bounds r; mret (roll_std r).

(** [returns.rolling(window=window).std() * np.sqrt(252)] *)
Definition rolling_volatility (returns : Series) (window : value)
  : result Series :=
  r ← rolling returns window;
  std ← std r;
  mret ((λ x, x * sqrt (of_Z 252))%float <$> (std : Series)).

(** [sharpe_ratio]: the annualised excess return over the annualised
    volatility, and the integer 0 where the volatility compares equal
    to 0. *)
Definition sharpe_ratio (returns : Series) (risk_free_rate : float)
  : BaseStrategy.number :=
  let excess_returns := (series_mean returns * of_Z 252 - risk_free_rate)%float in
  let volatility := (series_std returns * sqrt (of_Z 252))%float in
  if Float.neqb volatility (of_Z 0)
  then BaseStrategy.Float_ (excess_returns / volatility)%float
  else BaseStrategy.Int 0.

(** [bollinger_bands]: the three named series. *)
Definition bollinger_bands (prices : Series) (window : value) (num_std : float)
  : result (gmap string Series) :=
  r ← rolling prices window;
  sma ← mean r;
  r' ← rolling prices window;
  std ← std r';
  let width := (λ x, x * num_std)%float <$> (std : Series) in
  mret {[ "middle" := sma;
          "upper" := zip_with Float.add sma width;
          "lower" := zip_with Float.sub sma width ]}.

End WithSqrt.

End Volatility.

(* ===================================================================== *)
(** * A client of a strategy object *)
(* ===================================================================== *)

Module Session.

Import BaseStrategy.

(** The calls a client makes on a strategy object through its public
    methods, as [main] of the example does. *)
Inductive call : Type :=
| Initialize (d : DataFrame)
| Update (new_data : RowSeries)
| GenerateSignals (d : DataFrame)
| GetParameter (key : string) (dflt : value)
| SetParameter (key : string) (v : value)
| ValidateData (d : DataFrame)
| CalculateIndicators (d : DataFrame).

(** The object after one call; a client that catches an exception goes
    on with the object as the failed call left it. *)
Definition after `{Strategy} (c : call) (self : state) : state :=
  match c with
  | Initialize d => (initialize d self).2
  | Update new_data => (update new_data self).2
  | GenerateSignals d => (generate_signals d self).2
  | GetParameter key dflt => (get_parameter key dflt self).2
  | SetParameter key v => (set_parameter key v self).2
  | ValidateData d => (validate_data d self).2
  | CalculateIndicators d => (calculate_indicators d self).2
  end.

(** The object after a sequence of calls. *)
Definition run `{Strategy} (calls : list call) (self : state) : state :=
  foldl (λ s c, after c s) self calls.

End Session.

(* ===================================================================== *)
(** * Vocabulary of the statements *)
(* ===================================================================== *)

Module Notions.

(** A value that pandas accepts as the size of a rolling window. *)
Definition valid_window (v : value) : Prop :=
  match v with
  | VInt w => 0 ≤ w
  | VNone => False
  end.

(** A window size with which a rolling aggregation over [s] goes
    through: a non-negative integer, below [2^63] unless the series is
    empty. *)
Definition window_fits (s : Series) (v : value) : Prop :=
  match v with
  | VInt w => 0 ≤ w ∧ (s = [] ∨ w < 2 ^ 63)
  | VNone => False
  end.

(** The value a parameter reads as when the method passes no default. *)
Definition parameter (self : BaseStrategy.state) (key : string) : value :=
  default VNone (BaseStrategy.parameters self !! key).

(** An entry that holds a number: neither missing nor infinite. *)
Definition is_number (x : float) : bool :=
  match x with Fin _ => true | _ => false end.

(** A series whose numbers are at most [2^900] in magnitude. Sums of up
    to [2^63] such numbers, and weighted means of them, stay within the
    range of a double, so the double computation of the code cannot
    overflow on such a series. *)
Definition moderate (s : Series) : Prop :=
  Forall (λ x, ∀ q, x = Fin q →
                (- Qc_of_Z (2 ^ 900) ≤ q)%Qc ∧ (q ≤ Qc_of_Z (2 ^ 900))%Qc) s.

(** How many of the signals have a given direction. *)
Definition count_type (ty : SignalType) (signals : list Signal) : Z :=
  Z.of_nat (length (filter (λ signal, signal_type signal = ty) signals)).

(** What [clean_data] does to the column named [c]. *)
Definition cleaned_column (c : string) (s : Series) : Series :=
  if decide (c ∈ DataProcessor.price_cols) then ffill s
  else if decide (c = "Volume") then fillna (of_Z 0) s
  else s.

(** A series without a missing entry after an entry that holds a value. *)
Definition gap_free (s : Series) : Prop :=
  ∀ i j x, s !! i = Some x → isnan x = false → (i ≤ j)%nat → (j < length s)%nat →
    ∃ y, s !! j = Some y ∧ isnan y = false.

(** A value that pandas accepts as the span of an exponential window. *)
Definition valid_span (v : value) : Prop :=
  match v with
  | VInt sp => 1 ≤ sp
  | VNone => False
  end.


(** Whether one of the entries up to position [i] holds a number. *)
Definition number_seen (s : Series) (i : nat) : bool :=
  existsb is_number (take (S i) s).

(** What the pass of an exponentially weighted mean maintains, for a
    property [P] of the numbers it averages: the carried weight is not
    negative, and the current average is missing as long as no
    observation was counted and a number with [P] afterwards. *)
Definition ewm_invariant (P : Qc → Prop) (st : Pandas.ewm_state) : Prop :=
  (0 ≤ Pandas.old_wt st)%Qc ∧
  match Pandas.weighted st with
  | Fin q => P q ∧ (1 ≤ Pandas.nobs st)%nat
  | NaN => Pandas.nobs st = 0%nat
  | _ => False
  end.

End Notions.

(* ===================================================================== *)
(** * Reference formulations of the specification *)
(* ===================================================================== *)

Module Reference.

(** The mean of [input[i-W+1..i]] over exact numbers. *)
Fixpoint sum_list (l : list Qc) : Qc :=
  match l with
  | [] => 0
  | x :: l' => x + sum_list l'
  end%Qc.

Definition window_mean (input : list Qc) (W i : nat) : Qc :=
  (sum_list ((λ k, default 0 (input !! k)) <$> seq (i + 1 - W) W)
   / Qc_of_Z (Z.of_nat W))%Qc.

(** The rule of the crossover at one index [i >= 1], read off the two
    averages: a Buy on an upward cross, a Sell on a downward cross, and
    nothing otherwise. A position outside a series reads as missing. *)
Definition at_ (s : Series) (i : Z) : float := default NaN (s !! Z.to_nat i).

Definition crossover_signal (ix : list Z) (close : Series) (i : Z)
    (ty : SignalType) : Signal :=
  {| timestamp := default 0 (ix !! Z.to_nat i);
     symbol := "AAPL";
     signal_type := ty;
     strength := of_Z 1;
     price := Some (at_ close i);
     metadata := None |}.

Definition crossover_at (ix : list Z) (close short_ma long_ma : Series) (i : Z)
    : option Signal :=
  if Float.leb (at_ short_ma (i - 1)) (at_ long_ma (i - 1))
     && Float.gtb (at_ short_ma i) (at_ long_ma i)
  then Some (crossover_signal ix close i BUY)
  else if Float.geb (at_ short_ma (i - 1)) (at_ long_ma (i - 1))
          && Float.ltb (at_ short_ma i) (at_ long_ma i)
  then Some (crossover_signal ix close i SELL)
  else None.

(** The oscillator at one position, from the two means. *)
Definition rsi_value (gain loss : float) : float :=
  (of_Z 100 - of_Z 100 / (of_Z 1 + gain / loss))%float.

(** The exponential moving average as the specification words it: the
    recursion with the constant smoothing factor [alpha = 2 / (S + 1)]. *)
Definition alpha (span : Z) : Qc := (2 / (Qc_of_Z span + 1))%Qc.








End Reference.

(* ===================================================================== *)
(** * Sample data *)
(* ===================================================================== *)

Module Sample.

(** The closing prices of the scenario of the specification. *)
Definition closes : Series := of_Z <$> [10; 10; 10; 10; 10; 9; 11; 13; 15; 17].

Definition ohlcv (ix : list Z) (close : Series) : DataFrame :=
  {| index := ix;
     columns := {[ "Open" := close; "High" := close; "Low" := close;
                   "Close" := close; "Volume" := close ]} |}.

(** The same prices as exact numbers. *)
Definition closes_q : list Qc := Qc_of_Z <$> [10; 10; 10; 10; 10; 9; 11; 13; 15; 17].

(** Ten daily records. *)
Definition frame : DataFrame :=
  ohlcv [100; 101; 102; 103; 104; 105; 106; 107; 108; 109] closes.

(** Three daily records. *)
Definition short_frame : DataFrame := ohlcv [100; 101; 102] (of_Z <$> [10; 11; 12]).

(** One more record. *)
Definition record : RowSeries :=
  {| Pandas.name := 110;
     fields := {[ "Open" := of_Z 17; "High" := of_Z 19; "Low" := of_Z 17;
                  "Close" := of_Z 19; "Volume" := of_Z 1000 ]} |}.

(** A crossover strategy with windows 2 and 4. *)
Definition strategy : BaseStrategy.state :=
  MovingAverageCrossover.init (VInt 2) (VInt 4).

(** A frame and a record that hold opening prices only. *)
Definition open_frame : DataFrame :=
  {| index := [1; 2]; columns := {[ "Open" := of_Z <$> [3; 4] ]} |}.

Definition open_record : RowSeries :=
  {| Pandas.name := 3; fields := {[ "Open" := of_Z 5 ]} |}.

(** A frame with gaps: no close on the first day, nothing on the third. *)
Definition gappy_frame : DataFrame :=
  {| index := [1; 2; 3; 4];
     columns := {[ "Close" := [NaN; of_Z 5; NaN; of_Z 7];
                   "Volume" := [of_Z 10; NaN; NaN; of_Z 30] ]} |}.

End Sample.

(* ===================================================================== *)
(** * Arithmetic of exact numbers and of floats *)
(* ===================================================================== *)

Section Arithmetic.

#[local] Open Scope Qc_scope.

Lemma Qc_of_Z_1 : Qc_of_Z 1 = 1%Qc.
Proof. by apply Qc_is_canon. Qed.

Lemma Qc_of_Z_0 : Qc_of_Z 0 = 0%Qc.
Proof. by apply Qc_is_canon. Qed.

Lemma Qclt_irrefl (q : Qc) : ¬ (q < q)%Qc.
Proof. intros H. by apply Qclt_not_eq in H. Qed.

Lemma Qc_of_Z_le (a b : Z) : (a ≤ b)%Z → Qc_of_Z a ≤ Qc_of_Z b.
Proof.
  intros H. unfold Qcle. change (inject_Z a <= inject_Z b)%Q.
  by rewrite <- Zle_Qle.
Qed.

Lemma Qcinv_nonneg (x : Qc) : 0 ≤ x → 0 ≤ / x.
Proof.
  unfold Qcle. intros H. change (0 <= Qred (/ x))%Q.
  rewrite Qred_correct. by apply Qinv_le_0_compat.
Qed.

Lemma Qcmult_nonneg (x y : Qc) : 0 ≤ x → 0 ≤ y → 0 ≤ x * y.
Proof.
  intros Hx Hy. rewrite <- (Qcmult_0_l y). by apply Qcmult_le_compat_r.
Qed.

Lemma Qcplus_one_nonneg (y : Qc) : 0 ≤ y → 1 ≤ 1 + y.
Proof.
  intros Hy. rewrite <- (Qcplus_0_r 1) at 1.
  apply Qcplus_le_compat; [apply Qcle_refl|done].
Qed.

Lemma Qc_ge_1_nonzero (x : Qc) : 1 ≤ x → x ≠ 0.
Proof.
  intros Hx ->. by apply (Qcle_not_lt _ _ Hx).
Qed.

Lemma Qc_sum_cons (x : Qc) (l : list Qc) : Qc_sum (x :: l) = x + Qc_sum l.
Proof. reflexivity. Qed.


Lemma Qc_sum_zeros (l : list Qc) : Forall (λ q, q = 0%Qc) l → Qc_sum l = 0%Qc.
Proof.
  induction 1 as [|q l -> _ IH]; [done|].
  unfold Qc_sum in *. cbn [foldr]. rewrite IH. ring.
Qed.

Lemma Qc_sum_nonneg (l : list Qc) : Forall (λ q, 0 ≤ q) l → 0 ≤ Qc_sum l.
Proof.
  induction 1 as [|q l Hq _ IH]; [done|].
  rewrite Qc_sum_cons. replace 0 with (0 + 0) by ring.
  by apply Qcplus_le_compat.
Qed.

Lemma Qc_of_nat_nonneg (n : nat) : 0 ≤ Qc_of_Z (Z.of_nat n).
Proof. rewrite <- Qc_of_Z_0. apply Qc_of_Z_le. lia. Qed.

Lemma ltb_irrefl (x : float) : Float.ltb x x = false.
Proof.
  destruct x as [q| | |]; try done. simpl.
  apply bool_decide_eq_false_2, Qclt_irrefl.
Qed.

Lemma ltb_asym (x y : float) : Float.ltb x y = true → Float.ltb y x = false.
Proof.
  destruct x as [a| | |], y as [b| | |]; try done. simpl.
  rewrite bool_decide_eq_true, bool_decide_eq_false.
  intros Hab Hba. exact (Qclt_irrefl a (Qclt_trans _ _ _ Hab Hba)).
Qed.

Lemma div_Fin (a b : Qc) : b ≠ 0%Qc → (Fin a / Fin b)%float = Fin (a / b)%Qc.
Proof. intros Hb. simpl. by rewrite bool_decide_eq_false_2. Qed.

Lemma sub_self (x : float) : (x - x)%float = NaN ∨ (x - x)%float = Fin 0%Qc.
Proof.
  destruct x as [q| | |]; auto. right. cbn. f_equal. ring.
Qed.

Lemma omap_observation_prep (s : Series) :
  omap observation (prep_values s) = omap observation s.
Proof.
  induction s as [|x s IH]; [done|].
  unfold prep_values in *. rewrite fmap_cons. cbn [omap list_omap].
  fold (omap observation ((λ x, if isinf x then NaN else x) <$> s)).
  fold (omap observation s). rewrite IH. by destruct x.
Qed.


End Arithmetic.

(* ===================================================================== *)
(** * Properties of the state-and-error monad *)
(* ===================================================================== *)

Section MethodFacts.

Import BaseStrategy.

Lemma bind_ok {A B} (m : M A) (f : A → M B) self a self' :
  m self = (Ok a, self') → (m ≫= f) self = f a self'.
Proof. intros E. unfold mbind, M_bind. by rewrite E. Qed.

Lemma bind_raise {A B} (m : M A) (f : A → M B) self e self' :
  m self = (Raise e, self') → (m ≫= f) self = (Raise e, self').
Proof. intros E. unfold mbind, M_bind. by rewrite E. Qed.

Lemma bind_lift_ok {A B} (a : A) (f : A → M B) self :
  (lift (Ok a) ≫= f) self = f a self.
Proof. reflexivity. Qed.

Lemma bind_lift_raise {A B} e (f : A → M B) self :
  (lift (Raise e) ≫= f) self = (Raise e, self).
Proof. reflexivity. Qed.

Lemma gets_run {A} (f : state → A) self : gets f self = (Ok (f self), self).
Proof. reflexivity. Qed.

Lemma modify_run (f : state → state) self : modify f self = (Ok tt, f self).
Proof. reflexivity. Qed.

Lemma observer_ret {A} (a : A) : observer (mret a : M A).
Proof. by intros self. Qed.

Lemma observer_lift {A} (r : result A) : observer (lift r).
Proof. by intros self. Qed.

Lemma observer_raise {A} e : observer (raise e : M A).
Proof. by intros self. Qed.

Lemma observer_get_parameter key dflt : observer (get_parameter key dflt).
Proof.
  intros self; split; [done|].
  intros self' E. unfold get_parameter, gets. simpl. by rewrite E.
Qed.

Lemma observer_bind {A B} (m : M A) (f : A → M B) :
  observer m → (∀ a, observer (f a)) → observer (m ≫= f).
Proof.
  intros Hm Hf self.
  destruct (Hm self) as [Hs Hr].
  destruct (m self) as [[a|e] s1] eqn:E; simpl in Hs; subst s1.
  - rewrite (bind_ok _ _ _ _ _ E). destruct (Hf a self) as [Hs' Hr'].
    split; [done|]. intros self' Ep.
    specialize (Hr self' Ep). destruct (Hm self') as [Hs1 _].
    destruct (m self') as [r1 s1] eqn:E1. simpl in *. subst.
    rewrite (bind_ok _ _ _ _ _ E1). by apply Hr'.
  - rewrite (bind_raise _ _ _ _ _ E). split; [done|]. intros self' Ep.
    specialize (Hr self' Ep). destruct (Hm self') as [Hs1 _].
    destruct (m self') as [r1 s1] eqn:E1. simpl in *. subst.
    by rewrite (bind_raise _ _ _ _ _ E1).
Qed.

Lemma observer_for {A B} (l : list A) (body : A → B → M B) acc :
  (∀ x b, observer (body x b)) → observer (for_ l body acc).
Proof.
  intros Hb. revert acc.
  induction l as [|x l IH]; intros acc; simpl.
  - apply observer_ret.
  - apply observer_bind; [apply Hb | intros; apply IH].
Qed.

Lemma observer_if {A} (b : bool) (m1 m2 : M A) :
  observer m1 → observer m2 → observer (if b then m1 else m2).
Proof. by destruct b. Qed.

End MethodFacts.

Create HintDb observer.
#[global] Hint Resolve observer_ret observer_lift observer_raise
  observer_get_parameter observer_for observer_if : observer.
#[global] Hint Extern 2 (BaseStrategy.observer (_ ≫= _)) =>
  apply observer_bind; [|intros] : observer.

Section CrossoverObserver.

Import BaseStrategy MovingAverageCrossover.

Lemma loop_body_observer d short_ma long_ma i signals :
  observer (loop_body d short_ma long_ma i signals).
Proof. unfold loop_body. auto 20 with observer. Qed.

Lemma generate_signals_observer d :
  observer (MovingAverageCrossover.generate_signals d).
Proof.
  unfold MovingAverageCrossover.generate_signals.
  auto 20 using loop_body_observer with observer.
Qed.

End CrossoverObserver.

(* ===================================================================== *)
(** * The strategy contract *)
(* ===================================================================== *)

Section Contract.

Import BaseStrategy.

(** C7. [generate_signals] of the moving-average crossover is
    deterministic and pure: a call returns [self] exactly as it received
    it (name, parameters, bound series, initialized flag, collected
    signals), a second call on the same series returns the same outcome as
    the first, and two strategy objects with the same parameters return
    the same outcome on the same series. *)
Theorem generate_signals_pure (self : state) (d : DataFrame) :
  let '(r1, self1) := MovingAverageCrossover.generate_signals d self in
  let '(r2, self2) := MovingAverageCrossover.generate_signals d self1 in
  self1 = self ∧ self2 = self ∧ r2 = r1 ∧
  ∀ other : state,
    parameters other = parameters self →
    (MovingAverageCrossover.generate_signals d other).1 = r1.
Proof.
  destruct (generate_signals_observer d self) as [Hs Hr].
  destruct (MovingAverageCrossover.generate_signals d self) as [r1 self1] eqn:E1.
  simpl in Hs. subst self1. rewrite E1. simpl in Hr. auto.
Qed.

(** C9. [validate_data] returns true exactly when the five columns Open,
    High, Low, Close and Volume are all present; it returns (it never
    raises) and leaves [self] alone; two tables with the same column
    names get the same answer whatever their values and row labels; a
    table without Volume gets false. *)
Theorem validate_data_columns (self : state) (d : DataFrame) :
  ∃ b : bool,
    validate_data d self = (Ok b, self) ∧
    (b = true ↔
       is_Some (columns d !! "Open") ∧ is_Some (columns d !! "High") ∧
       is_Some (columns d !! "Low") ∧ is_Some (columns d !! "Close") ∧
       is_Some (columns d !! "Volume")) ∧
    (∀ d' : DataFrame,
       dom (columns d') = dom (columns d) →
       validate_data d' self = (Ok b, self)) ∧
    (columns d !! "Volume" = None → b = false).
Proof.
  eexists. split; [reflexivity|]. split; [|split].
  - unfold required_columns. simpl.
    rewrite !andb_true_iff, !bool_decide_eq_true, !elem_of_dom. tauto.
  - intros d' Hd. unfold validate_data. by rewrite Hd.
  - intros Hv. unfold required_columns. simpl.
    rewrite (bool_decide_eq_false_2 ("Volume" ∈ dom (columns d))).
    + by rewrite !andb_false_r.
    + rewrite elem_of_dom, Hv. by intros [? ?].
Qed.

End Contract.

(* ===================================================================== *)
(** * The moving-average crossover *)
(* ===================================================================== *)

Section Crossover.

Import BaseStrategy TechnicalIndicators MovingAverageCrossover.

Lemma mean_ok (r : Rolling) :
  obj r = [] ∨ Z.of_nat (window r) < 2 ^ 63 → mean r = Ok (roll_mean r).
Proof.
  intros H. unfold mean, window_bounds.
  destruct H as [H|H].
  - by rewrite bool_decide_eq_true_2.
  - destruct (Z.ltb_spec (Z.of_nat (window r)) (2 ^ 63)); [|lia].
    by rewrite orb_true_r.
Qed.

Lemma mean_overflow (r : Rolling) :
  obj r ≠ [] → 2 ^ 63 ≤ Z.of_nat (window r) →
  mean r = Raise OverflowError.
Proof.
  intros Hobj H. unfold mean, window_bounds.
  rewrite bool_decide_eq_false_2 by done.
  by destruct (Z.ltb_spec (Z.of_nat (window r)) (2 ^ 63)); [lia|].
Qed.

Lemma rolling_valid (s : Series) (W : Z) :
  0 ≤ W →
  rolling s (VInt W) =
    Ok {| obj := s; window := Z.to_nat W; min_periods := Z.to_nat W |}.
Proof. intros HW. unfold rolling. destruct (Z.ltb_spec W 0); [lia|done]. Qed.

Lemma sma_ok (prices : Series) (W : Z) :
  0 ≤ W → W < 2 ^ 63 →
  sma prices (VInt W) =
    Ok (roll_mean {| obj := prices; window := Z.to_nat W; min_periods := Z.to_nat W |}).
Proof.
  intros HW Hfit. unfold sma. rewrite rolling_valid by done.
  cbn [mbind result_bind]. apply mean_ok. right. cbn [window]. lia.
Qed.

Lemma sma_empty (W : Z) : 0 ≤ W → sma [] (VInt W) = Ok [].
Proof.
  intros HW. unfold sma. rewrite rolling_valid by done.
  cbn [mbind result_bind]. rewrite mean_ok by (by left). done.
Qed.

Lemma sma_overflow (prices : Series) (W : Z) :
  prices ≠ [] → 2 ^ 63 ≤ W →
  sma prices (VInt W)
  = Raise OverflowError.
Proof.
  intros Hne HW. unfold sma. rewrite rolling_valid by lia.
  cbn [mbind result_bind]. apply mean_overflow; [done|]. cbn [window]. lia.
Qed.

Lemma length_mean (r : Rolling) : length (roll_mean r) = length (obj r).
Proof. unfold roll_mean. by rewrite length_fmap, length_seq. Qed.

Lemma range_empty (start stop : Z) : stop ≤ start → range start stop = [].
Proof. intros H. unfold range. by replace (Z.to_nat (stop - start)) with 0%nat by lia. Qed.

Lemma get_parameter_run (self : state) key dflt :
  get_parameter key dflt self = (Ok (default dflt (parameters self !! key)), self).
Proof. reflexivity. Qed.

Lemma get_parameter_eq (self : state) key v dflt :
  parameters self !! key = Some v →
  get_parameter key dflt self = (Ok v, self).
Proof. intros E. unfold get_parameter, gets. by rewrite E. Qed.

(** The method body once the parameters and the Close column are known. *)
Lemma generate_signals_eval (self : state) (d : DataFrame) (Ws Wl : Z) close :
  parameters self !! "short_window" = Some (VInt Ws) →
  parameters self !! "long_window" = Some (VInt Wl) →
  columns d !! "Close" = Some close →
  0 ≤ Ws < 2 ^ 63 → 0 ≤ Wl < 2 ^ 63 →
  MovingAverageCrossover.generate_signals d self =
    for_ (range Wl (len d))
      (loop_body d
         (roll_mean {| obj := close; window := Z.to_nat Ws; min_periods := Z.to_nat Ws |})
         (roll_mean {| obj := close; window := Z.to_nat Wl; min_periods := Z.to_nat Wl |}))
      [] self.
Proof.
  intros Hs Hl Hc HWs HWl. unfold MovingAverageCrossover.generate_signals.
  rewrite (bind_ok _ _ _ _ _ (get_parameter_eq _ _ _ _ Hs)).
  rewrite (bind_ok _ _ _ _ _ (get_parameter_eq _ _ _ _ Hl)).
  unfold getitem. rewrite Hc, bind_lift_ok, sma_ok, bind_lift_ok by lia.
  rewrite bind_lift_ok, sma_ok, bind_lift_ok by lia. reflexivity.
Qed.

Lemma generate_signals_empty_range
    (self : state) (d : DataFrame) (Ws Wl : Z) (close : Series) :
  parameters self !! "short_window" = Some (VInt Ws) →
  parameters self !! "long_window" = Some (VInt Wl) →
  columns d !! "Close" = Some close →
  0 ≤ Ws < 2 ^ 63 → 0 ≤ Wl < 2 ^ 63 →
  len d ≤ Wl →
  MovingAverageCrossover.generate_signals d self = (Ok [], self).
Proof.
  intros Hs Hl Hc HWs HWl Hlen.
  rewrite (generate_signals_eval self d Ws Wl close) by done.
  rewrite range_empty by lia. reflexivity.
Qed.

(** C8. On a series with fewer rows than the long window the crossover
    returns the empty signal sequence. The series has a Close column and
    the two windows are sizes pandas accepts for a rolling window:
    the short one is not negative, and both are below [2^63]. *)
Theorem generate_signals_short_series
    (self : state) (d : DataFrame) (Ws Wl : Z) (close : Series) :
  parameters self !! "short_window" = Some (VInt Ws) →
  parameters self !! "long_window" = Some (VInt Wl) →
  columns d !! "Close" = Some close →
  0 ≤ Ws < 2 ^ 63 →
  Wl < 2 ^ 63 →
  len d < Wl →
  MovingAverageCrossover.generate_signals d self = (Ok [], self).
Proof.
  intros Hs Hl Hc HWs HWl Hlen.
  assert (0 ≤ Wl) by (unfold len in Hlen; lia).
  apply (generate_signals_empty_range self d Ws Wl close); auto with lia.
Qed.

Lemma generate_signals_short_series_witness :
  MovingAverageCrossover.generate_signals Sample.short_frame Sample.strategy
  = (Ok [], Sample.strategy).
Proof.
  apply (generate_signals_short_series
           Sample.strategy Sample.short_frame 2 4 (of_Z <$> [10; 11; 12]));
    [reflexivity | reflexivity | reflexivity | lia | lia | vm_compute; reflexivity].
Defined.

(** With no index to visit, the crossover returns no signal, whatever
    else happens. *)
Lemma generate_signals_no_rows (self : state) (d : DataFrame) (Wl : Z) sigs :
  parameters self !! "long_window" = Some (VInt Wl) →
  len d ≤ Wl →
  (MovingAverageCrossover.generate_signals d self).1 = Ok sigs →
  sigs = [].
Proof.
  intros Hl Hlen. unfold MovingAverageCrossover.generate_signals.
  rewrite (bind_ok _ _ _ _ _ (get_parameter_run self "short_window" VNone)).
  rewrite (bind_ok _ _ _ _ _ (get_parameter_eq _ _ _ _ Hl)).
  destruct (getitem d "Close") as [close|e]; [|by rewrite bind_lift_raise].
  rewrite bind_lift_ok.
  destruct (sma close _) as [short_ma|e]; [|by rewrite bind_lift_raise].
  rewrite !bind_lift_ok.
  destruct (sma close _) as [long_ma|e]; [|by rewrite bind_lift_raise].
  rewrite bind_lift_ok. simpl as_int. rewrite bind_lift_ok.
  rewrite range_empty by done. simpl. congruence.
Qed.

Lemma concat_bound (old : option DataFrame) (f : DataFrame) :
  concat [old; Some f] = Ok (from_option (λ d0, append d0 f) f old).
Proof. by destruct old. Qed.

Lemma len_tail_1 (d : DataFrame) : len (tail 1 d) ≤ 1.
Proof. unfold len, tail. simpl. rewrite length_drop. lia. Qed.

Lemma update_eval `{Strategy} (self : state) (r : RowSeries) :
  initialized self = true →
  let d' := from_option (λ d0, append d0 (to_frame_T r)) (to_frame_T r) (data self) in
  let self' := (set_data d' self).2 in
  update r self =
    (match (BaseStrategy.generate_signals (tail 1 d') self').1 with
     | Ok sigs => Ok (head sigs)
     | Raise e => Raise e
     end,
     (BaseStrategy.generate_signals (tail 1 d') self').2).
Proof.
  intros Hi d' self'. unfold update.
  rewrite (bind_ok _ _ _ _ _ (gets_run _ self)).
  rewrite Hi. change (negb true) with false. cbv iota.
  rewrite (bind_ok _ _ _ _ _ (gets_run _ self)).
  rewrite concat_bound, bind_lift_ok.
  rewrite (bind_ok _ _ _ _ _ (modify_run _ self : set_data _ self = _)).
  fold d'.
  destruct (BaseStrategy.generate_signals (tail 1 d') self') as [[sigs|e] s2] eqn:E.
  - by rewrite (bind_ok _ _ _ _ _ E).
  - by rewrite (bind_raise _ _ _ _ _ E).
Qed.

Lemma update_uninitialized `{Strategy} (self : state) (r : RowSeries) :
  initialized self = false →
  update r self = (Raise (ValueError uninitialized_msg), self).
Proof.
  intros Hi. unfold update.
  rewrite (bind_ok _ _ _ _ _ (gets_run _ self)).
  by rewrite Hi.
Qed.

Lemma lookup_append_bound (d : DataFrame) (r : RowSeries) c s :
  columns d !! c = Some s →
  columns (append d (to_frame_T r)) !! c = Some (s ++ [default NaN (fields r !! c)]).
Proof.
  intros Hc. unfold append, to_frame_T. simpl.
  rewrite lookup_merge, Hc, lookup_fmap.
  by destruct (fields r !! c).
Qed.

Lemma lookup_append_is_Some (a b : DataFrame) (c : string) :
  is_Some (columns a !! c) ∨ is_Some (columns b !! c) →
  is_Some (columns (append a b) !! c).
Proof.
  unfold append. cbn [columns]. rewrite lookup_merge.
  intros [[x ->]|[y ->]]; destruct (columns _ !! c); by eexists.
Qed.

(** C10, as the code has it. With a long window of at least one,
    [update] of the crossover never reports a signal, whatever the data:
    it hands [generate_signals] the newest record alone, and the loop
    over [range(long_window, 1)] visits no index. The call does not
    always return, though: it returns [None] on an initialized strategy
    whose windows are sizes pandas accepts (the short one not negative,
    both below [2^63]) when the new record or the bound series has a
    Close entry. *)
Theorem update_never_signals (self : state) (r : RowSeries) (Wl : Z) :
  parameters self !! "long_window" = Some (VInt Wl) →
  1 ≤ Wl →
  (∀ s : Signal, (update r self).1 ≠ Ok (Some s)) ∧
  (∀ Ws : Z,
     initialized self = true →
     (is_Some (fields r !! "Close") ∨
      ∃ d0, data self = Some d0 ∧ is_Some (columns d0 !! "Close")) →
     parameters self !! "short_window" = Some (VInt Ws) →
     0 ≤ Ws < 2 ^ 63 →
     Wl < 2 ^ 63 →
     (update r self).1 = Ok None).
Proof.
  intros Hl HWl. split.
  - intros s. destruct (initialized self) eqn:Hi.
    + rewrite update_eval by done. cbv zeta.
      set (d' := from_option _ _ _). set (self' := (set_data d' self).2).
      change (BaseStrategy.generate_signals (tail 1 d') self')
        with (MovingAverageCrossover.generate_signals (tail 1 d') self').
      pose proof (generate_signals_no_rows self' (tail 1 d') Wl) as Hno.
      destruct (MovingAverageCrossover.generate_signals (tail 1 d') self')
        as [[sigs|e] s2]; simpl in *; [|done].
      rewrite (Hno sigs); [done|exact Hl| |done].
      etrans; [apply len_tail_1|done].
    + by rewrite update_uninitialized.
  - intros Ws Hi Hclose Hs HWs HWl63.
    rewrite update_eval by done. cbv zeta.
    set (d' := from_option _ _ _). set (self' := (set_data d' self).2).
    change (BaseStrategy.generate_signals (tail 1 d') self')
      with (MovingAverageCrossover.generate_signals (tail 1 d') self').
    assert (is_Some (columns d' !! "Close")) as [close Hc].
    { unfold d'. destruct (data self) as [d0|]; cbn [from_option].
      - apply lookup_append_is_Some. destruct Hclose as [Hr|(? & [= <-] & Hd)].
        + right. unfold to_frame_T. cbn [columns]. rewrite lookup_fmap.
          by apply fmap_is_Some.
        + by left.
      - destruct Hclose as [Hr|(? & [=] & _)].
        unfold to_frame_T. cbn [columns]. rewrite lookup_fmap.
        by apply fmap_is_Some. }
    rewrite (generate_signals_empty_range self' (tail 1 d') Ws Wl
               (drop (length close - 1) close));
      [done|exact Hs|exact Hl| |done|lia|].
    + unfold tail. cbn [columns]. by rewrite lookup_fmap, Hc.
    + pose proof (len_tail_1 d'). lia.
Qed.

Lemma iloc_lookup {A} (s : list A) (i : Z) (x : A) :
  0 ≤ i → s !! Z.to_nat i = Some x → iloc s i = Ok x.
Proof.
  intros Hi Hx. unfold iloc.
  pose proof (lookup_lt_Some _ _ _ Hx).
  destruct (Z.ltb_spec i 0); [lia|].
  destruct (Z.leb_spec 0 i); [|lia].
  destruct (Z.ltb_spec i (Z.of_nat (length s))); [|lia].
  simpl. by rewrite Hx.
Qed.

Lemma iloc_at (s : Series) (i : Z) :
  0 ≤ i < Z.of_nat (length s) → iloc s i = Ok (Reference.at_ s i).
Proof.
  intros Hi. destruct (lookup_lt_is_Some_2 s (Z.to_nat i)) as [x Hx]; [lia|].
  unfold Reference.at_. rewrite Hx. apply iloc_lookup; [lia|done].
Qed.

Lemma make_signal_eval (d : DataFrame) (close : Series) (i : Z) ty :
  columns d !! "Close" = Some close →
  length close = length (index d) →
  0 ≤ i < len d →
  make_signal d i ty = Ok (Reference.crossover_signal (index d) close i ty).
Proof.
  intros Hc Hlen Hi. unfold make_signal, len in *.
  destruct (lookup_lt_is_Some_2 (index d) (Z.to_nat i)) as [ts Hts]; [lia|].
  rewrite (iloc_lookup _ _ _ (proj1 Hi) Hts). cbn.
  unfold getitem. rewrite Hc. cbn.
  rewrite iloc_at by lia. cbn.
  unfold Reference.crossover_signal. by rewrite Hts.
Qed.

(** One iteration of the loop, at an index inside the series. *)
Lemma loop_body_eval (self : state) (d : DataFrame) (close short_ma long_ma : Series)
    (i : Z) (acc : list Signal) :
  columns d !! "Close" = Some close →
  length close = length (index d) →
  length short_ma = length close →
  length long_ma = length close →
  1 ≤ i < len d →
  loop_body d short_ma long_ma i acc self =
    (Ok (acc ++ option_list
                  (Reference.crossover_at (index d) close short_ma long_ma i)),
     self).
Proof.
  intros Hc Hlen Hsl Hll Hi. unfold loop_body, len in *.
  rewrite !iloc_at by lia. rewrite !bind_lift_ok.
  unfold Reference.crossover_at.
  destruct (_ && _).
  - rewrite (make_signal_eval d close) by (unfold len; auto with lia).
    by rewrite bind_lift_ok.
  - destruct (_ && _).
    + rewrite (make_signal_eval d close) by (unfold len; auto with lia).
      by rewrite bind_lift_ok.
    + simpl. by rewrite app_nil_r.
Qed.

Lemma for_loop_body_eval (self : state) (d : DataFrame)
    (close short_ma long_ma : Series) (l : list Z) (acc : list Signal) :
  columns d !! "Close" = Some close →
  length close = length (index d) →
  length short_ma = length close →
  length long_ma = length close →
  Forall (λ i, 1 ≤ i < len d) l →
  for_ l (loop_body d short_ma long_ma) acc self =
    (Ok (acc ++ omap (Reference.crossover_at (index d) close short_ma long_ma) l),
     self).
Proof.
  intros Hc Hlen Hsl Hll Hl. revert acc.
  induction Hl as [|i l Hi Hl IH]; intros acc.
  - simpl. by rewrite app_nil_r.
  - cbn [for_].
    rewrite (bind_ok _ _ _ _ _
               (loop_body_eval self d close short_ma long_ma i acc Hc Hlen Hsl Hll Hi)).
    rewrite IH, <- app_assoc. do 2 f_equal. cbn.
    by destruct (Reference.crossover_at _ _ _ _ i).
Qed.

Lemma range_bounds (start stop : Z) :
  Forall (λ i, start ≤ i < stop) (range start stop).
Proof.
  unfold range. apply Forall_fmap, list.Forall_forall. intros k Hk.
  apply elem_of_seq in Hk. simpl. lia.
Qed.

Lemma range_seqZ (start stop : Z) : range start stop = seqZ start (stop - start).
Proof.
  unfold range, seqZ. apply list_fmap_ext. intros _ k _. lia.
Qed.

(** C1. With short window [Ws] and long window [Wl >= 1] (both sizes
    pandas accepts: below [2^63]), over a series with a Close column,
    [generate_signals] returns, in index order, the signals of the
    indices [Wl, Wl+1, ..., n-1]; at such an index it emits a Buy
    exactly when [SMA_s[i-1] <= SMA_l[i-1]] and [SMA_s[i] > SMA_l[i]], a
    Sell exactly when [SMA_s[i-1] >= SMA_l[i-1]] and [SMA_s[i] < SMA_l[i]],
    and nothing otherwise; an emitted signal has the row label and the
    Close price of index [i] and strength 1.0; two equal averages at [i]
    emit nothing. *)
Theorem generate_signals_crossover
    (self : state) (d : DataFrame) (Ws Wl : Z) (close : Series) :
  parameters self !! "short_window" = Some (VInt Ws) →
  parameters self !! "long_window" = Some (VInt Wl) →
  columns d !! "Close" = Some close →
  wf_frame d →
  0 ≤ Ws < 2 ^ 63 → 1 ≤ Wl < 2 ^ 63 →
  ∃ (short_ma long_ma : Series) (sigs : list Signal) (signal_at : Z → option Signal),
    sma close (VInt Ws) = Ok short_ma ∧
    sma close (VInt Wl) = Ok long_ma ∧
    MovingAverageCrossover.generate_signals d self = (Ok sigs, self) ∧
    sigs = omap signal_at (seqZ Wl (len d - Wl)) ∧
    ∀ i : Z, Wl ≤ i < len d →
      ∃ (ts : Z) (p prev_short prev_long current_short current_long : float),
        index d !! Z.to_nat i = Some ts ∧
        close !! Z.to_nat i = Some p ∧
        short_ma !! Z.to_nat (i - 1) = Some prev_short ∧
        long_ma !! Z.to_nat (i - 1) = Some prev_long ∧
        short_ma !! Z.to_nat i = Some current_short ∧
        long_ma !! Z.to_nat i = Some current_long ∧
        (∀ s : Signal,
           signal_at i = Some s ↔
             (Float.leb prev_short prev_long = true ∧
              Float.gtb current_short current_long = true ∧
              s = {| timestamp := ts; symbol := "AAPL"; signal_type := BUY;
                     strength := of_Z 1; price := Some p; metadata := None |})
             ∨
             (Float.geb prev_short prev_long = true ∧
              Float.ltb current_short current_long = true ∧
              s = {| timestamp := ts; symbol := "AAPL"; signal_type := SELL;
                     strength := of_Z 1; price := Some p; metadata := None |})) ∧
        (current_short = current_long → signal_at i = None).
Proof.
  intros Hs Hl Hc Hwf HWs HWl.
  pose proof (Hwf _ _ Hc) as Hlen.
  set (short_ma := roll_mean {| obj := close; window := Z.to_nat Ws;
                           min_periods := Z.to_nat Ws |}).
  set (long_ma := roll_mean {| obj := close; window := Z.to_nat Wl;
                          min_periods := Z.to_nat Wl |}).
  assert (length short_ma = length close) as Hsl by apply length_mean.
  assert (length long_ma = length close) as Hll by apply length_mean.
  exists short_ma, long_ma,
    (omap (Reference.crossover_at (index d) close short_ma long_ma) (range Wl (len d))),
    (Reference.crossover_at (index d) close short_ma long_ma).
  split; [apply sma_ok; lia|]. split; [apply sma_ok; lia|].
  split; [|split; [by rewrite range_seqZ|]].
  - rewrite (generate_signals_eval self d Ws Wl close) by auto with lia.
    apply (for_loop_body_eval self d close short_ma long_ma _ []); try done.
    eapply list.Forall_impl; [apply range_bounds|]. simpl. lia.
  - intros i Hi. unfold len in Hi.
    destruct (lookup_lt_is_Some_2 (index d) (Z.to_nat i)) as [ts Hts]; [lia|].
    destruct (lookup_lt_is_Some_2 close (Z.to_nat i)) as [p Hp]; [lia|].
    destruct (lookup_lt_is_Some_2 short_ma (Z.to_nat (i - 1))) as [ps Hps]; [lia|].
    destruct (lookup_lt_is_Some_2 long_ma (Z.to_nat (i - 1))) as [pl Hpl]; [lia|].
    destruct (lookup_lt_is_Some_2 short_ma (Z.to_nat i)) as [cs Hcs]; [lia|].
    destruct (lookup_lt_is_Some_2 long_ma (Z.to_nat i)) as [cl Hcl]; [lia|].
    exists ts, p, ps, pl, cs, cl. repeat (split; [done|]).
    unfold Reference.crossover_at, Reference.crossover_signal, Reference.at_.
    rewrite Hts, Hp, Hps, Hpl, Hcs, Hcl. simpl default.
    split.
    + intros s. unfold Float.gtb.
      destruct (Float.leb ps pl) eqn:E1, (Float.ltb cl cs) eqn:E2; simpl.
      { split; [intros [= <-]; by left|].
        intros [(_ & _ & ->)|(_ & E3 & _)]; [done|].
        apply ltb_asym in E3. congruence. }
      all: destruct (Float.geb ps pl) eqn:E3, (Float.ltb cs cl) eqn:E4; simpl;
        (split; [try (intros [= <-]; by right); done|]);
        intros [(? & ? & ?)|(? & ? & ?)]; congruence.
    + intros ->. unfold Float.gtb. rewrite ltb_irrefl, !andb_false_r. done.
Qed.

Lemma ohlcv_wf (ix : list Z) (close : Series) :
  length close = length ix → wf_frame (Sample.ohlcv ix close).
Proof.
  intros Hlen c s. unfold Sample.ohlcv. cbn [columns index].
  intros Hc.
  repeat (apply lookup_insert_Some in Hc as [[_ <-]|[_ Hc]]; [done|]).
  by apply lookup_singleton_Some in Hc as [_ <-].
Qed.

Lemma generate_signals_crossover_witness :
  ∃ sigs : list Signal,
    MovingAverageCrossover.generate_signals Sample.frame Sample.strategy
    = (Ok sigs, Sample.strategy).
Proof.
  destruct (generate_signals_crossover Sample.strategy Sample.frame 2 4 Sample.closes)
    as (short_ma & long_ma & sigs & signal_at & _ & _ & E & _);
    [reflexivity | reflexivity | reflexivity | by apply ohlcv_wf | lia | lia |].
  by exists sigs.
Defined.

(** The scenario of the specification: the prices 10, 10, 10, 10, 10, 9,
    11, 13, 15, 17 with windows 2 and 4. The short average falls below
    the long one at index 5, the two are equal at index 6, and the short
    one is above at index 7. *)
Example crossover_scenario :
  (MovingAverageCrossover.generate_signals Sample.frame Sample.strategy).1
  = Ok [ {| timestamp := 105; symbol := "AAPL"; signal_type := SELL;
            strength := of_Z 1; price := Some (of_Z 9); metadata := None |};
         {| timestamp := 107; symbol := "AAPL"; signal_type := BUY;
            strength := of_Z 1; price := Some (of_Z 13); metadata := None |} ].
Proof. apply (bool_decide_unpack _). vm_compute. exact I. Qed.

Lemma update_never_signals_witness :
  (update Sample.record (initialize Sample.frame Sample.strategy).2).1 = Ok None.
Proof.
  refine (proj2 (update_never_signals
                   (initialize Sample.frame Sample.strategy).2 Sample.record 4
                   _ _) 2 _ _ _ _ _);
    [reflexivity | lia | reflexivity | left; by eexists | reflexivity | lia | lia].
Defined.

(** C10, as the claim states it, fails: an initialized crossover bound to
    a frame of opening prices only, updated with a record of an opening
    price only, does not return [None]: the call raises
    [KeyError('Close')]. *)
Lemma update_can_raise :
  initialized (initialize Sample.open_frame Sample.strategy).2 = true ∧
  parameters (initialize Sample.open_frame Sample.strategy).2 !! "long_window"
    = Some (VInt 4) ∧
  (update Sample.open_record (initialize Sample.open_frame Sample.strategy).2).1
    = Raise (KeyError "Close") ∧
  (update Sample.open_record (initialize Sample.open_frame Sample.strategy).2).1
    ≠ Ok None.
Proof.
  assert ((update Sample.open_record
             (initialize Sample.open_frame Sample.strategy).2).1
          = Raise (KeyError "Close")) as E
    by (apply (bool_decide_unpack _); vm_compute; exact I).
  rewrite E. by repeat split.
Qed.

End Crossover.

(* ===================================================================== *)
(** * [initialize] and [update] *)
(* ===================================================================== *)

Section UpdateContract.

Import BaseStrategy.

(** Any concrete strategy whose [generate_signals] leaves [self] alone. *)
Context `{Strategy}.
Hypothesis generate_signals_keeps_self :
  ∀ d self, (BaseStrategy.generate_signals d self).2 = self.

(** C3. [update] before [initialize] raises the out-of-order error (the
    [ValueError] "Strategy must be initialized before updating") and
    leaves [self] as it was. Once [initialize] has bound a series [d],
    [update r] passes that check: it binds the series [d] extended by
    exactly the record [r] (one more row label, one more entry in every
    column, a missing value where [r] has no such field), keeps the other
    attributes, and its outcome is that of [generate_signals] on the last
    row. *)
Theorem update_requires_initialize :
  (∀ (self : state) (r : RowSeries),
     initialized self = false →
     update r self = (Raise (ValueError uninitialized_msg), self)) ∧
  (∀ (self : state) (d : DataFrame) (r : RowSeries),
     initialized self = true →
     data self = Some d →
     let d' := append d (to_frame_T r) in
     let bound := {| name := name self;
                     parameters := parameters self;
                     signals := signals self;
                     data := Some d';
                     initialized := true |} in
     (update r self).2 = bound ∧
     (update r self).1 =
       match (BaseStrategy.generate_signals (tail 1 d') bound).1 with
       | Ok sigs => Ok (head sigs)
       | Raise e => Raise e
       end ∧
     index d' = index d ++ [Pandas.name r] ∧
     (∀ c s, columns d !! c = Some s →
             columns d' !! c = Some (s ++ [default NaN (fields r !! c)])) ∧
     (∀ c, columns d !! c = None →
           columns d' !! c =
             (λ x, replicate (length (index d)) NaN ++ [x]) <$> fields r !! c)) ∧
  (∀ (self : state) (d : DataFrame),
     (initialize d self).2 = {| name := name self;
                                parameters := parameters self;
                                signals := signals self;
                                data := Some d;
                                initialized := true |}).
Proof.
  split; [|split].
  - intros self r Hi. by apply update_uninitialized.
  - intros self d r Hi Hd d' bound.
    rewrite update_eval by done. cbn [fst snd]. rewrite Hd.
    change (from_option (λ d0, append d0 (to_frame_T r)) (to_frame_T r) (Some d))
      with d'.
    replace ((set_data d' self).2) with bound
      by (unfold bound, set_data, modify; cbn; by rewrite Hi).
    rewrite generate_signals_keeps_self.
    split; [done|]. split; [done|]. split; [done|]. split.
    + intros c s Hc. by apply lookup_append_bound.
    + intros c Hc. unfold d', append, to_frame_T. simpl.
      rewrite lookup_merge, Hc, lookup_fmap. by destruct (fields r !! c).
  - done.
Qed.

End UpdateContract.

Lemma update_requires_initialize_witness :
  BaseStrategy.update Sample.record Sample.strategy
    = (Raise (ValueError BaseStrategy.uninitialized_msg), Sample.strategy) ∧
  BaseStrategy.data
    (BaseStrategy.update Sample.record
       (BaseStrategy.initialize Sample.frame Sample.strategy).2).2
    = Some (append Sample.frame (to_frame_T Sample.record)).
Proof.
  pose proof (update_requires_initialize
                (λ d self, proj1 (generate_signals_observer d self)))
    as (Hu & Hi & _).
  split.
  - apply Hu. reflexivity.
  - destruct (Hi (BaseStrategy.initialize Sample.frame Sample.strategy).2
                Sample.frame Sample.record eq_refl eq_refl) as [-> _].
    reflexivity.
Defined.

(* ===================================================================== *)
(** * Indicators *)
(* ===================================================================== *)

Section Indicators.

Import TechnicalIndicators Reference.

Lemma omap_observation_Fin (l : list Qc) : omap observation (Fin <$> l) = l.
Proof. induction l as [|q l IH]; [done|]. cbn. by rewrite IH. Qed.

Lemma length_omap_le {A B} (f : A → option B) (l : list A) :
  (length (omap f l) ≤ length l)%nat.
Proof.
  induction l as [|x l IH]; [done|]. cbn.
  destruct (f x); simpl; lia.
Qed.

Lemma take_drop_seq (l : list Qc) (start n : nat) :
  (start + n ≤ length l)%nat →
  take n (drop start l) = (λ k, default 0%Qc (l !! k)) <$> seq start n.
Proof.
  revert start. induction n as [|n IH]; intros start Hlen; [done|].
  destruct (lookup_lt_is_Some_2 l start) as [x Hx]; [lia|].
  rewrite (drop_S _ _ _ Hx). simpl. rewrite Hx. simpl. f_equal.
  apply IH. lia.
Qed.

(** The window that ends at [i], over a series without missing values. *)
Lemma window_at_full (l : list Qc) (w i : nat) :
  (w ≤ S i)%nat → (i < length l)%nat →
  omap observation (window_at {| obj := Fin <$> l; window := w; min_periods := w |} i)
  = (λ k, default 0%Qc (l !! k)) <$> seq (i + 1 - w) w.
Proof.
  intros Hw Hi. unfold window_at. simpl obj. simpl window.
  rewrite <- fmap_drop, <- fmap_take, omap_observation_Fin.
  replace (S i - (S i - w))%nat with w by lia.
  replace (S i - w)%nat with (i + 1 - w)%nat by lia.
  apply take_drop_seq. lia.
Qed.

Lemma window_at_partial (s : Series) (w i : nat) :
  (S i < w)%nat →
  (length (omap observation
             (window_at {| obj := s; window := w; min_periods := w |} i)) < w)%nat.
Proof.
  intros Hw. unfold window_at. simpl obj. simpl window.
  eapply Nat.le_lt_trans; [apply length_omap_le|].
  rewrite length_take. lia.
Qed.

Lemma Qc_sum_sum_list (l : list Qc) : Qc_sum l = sum_list l.
Proof.
  induction l as [|x l IH]; [done|]. rewrite Qc_sum_cons, IH. done.
Qed.

(** C4, as the code has it. Over exact arithmetic, for a window
    [1 <= W < 2^63] and a series of numbers, the simple moving average
    has one entry per entry of the input; at every position [i >= W-1]
    it is the mean of [input[i-W+1..i]], and at every position [i < W-1]
    it is missing. *)
Theorem sma_window_mean (input : list Qc) (W : Z) :
  1 ≤ W < 2 ^ 63 →
  ∃ out : Series,
    sma (Fin <$> input) (VInt W) = Ok out ∧
    length out = length input ∧
    ∀ i : nat, (i < length input)%nat →
      (W - 1 ≤ Z.of_nat i →
         out !! i = Some (Fin (window_mean input (Z.to_nat W) i))) ∧
      (Z.of_nat i < W - 1 → out !! i = Some NaN).
Proof.
  intros HW. eexists. split; [apply sma_ok; lia|].
  split; [by rewrite length_mean; simpl; rewrite length_fmap|].
  intros i Hi. unfold roll_mean. simpl obj. rewrite length_fmap.
  rewrite list_lookup_fmap, lookup_seq_lt by done. simpl.
  set (w := Z.to_nat W). split; intros Hw.
  - unfold mean_at. rewrite omap_observation_prep, window_at_full by lia.
    rewrite length_fmap, length_seq. simpl min_periods.
    rewrite Nat.leb_refl. simpl.
    destruct (Nat.ltb_spec 0 w); [|lia].
    unfold window_mean. by rewrite Qc_sum_sum_list.
  - unfold mean_at. rewrite omap_observation_prep.
    pose proof (window_at_partial (Fin <$> input) w i ltac:(lia)) as Hlt.
    simpl min_periods.
    destruct (Nat.leb_spec w (length (omap observation
      (window_at {| obj := Fin <$> input; window := w; min_periods := w |} i))));
      [lia|done].
Qed.

Lemma sma_window_mean_witness :
  ∃ out : Series,
    sma (Fin <$> Sample.closes_q) (VInt 4) = Ok out ∧
    length out = length Sample.closes_q ∧
    ∀ i : nat, (i < length Sample.closes_q)%nat →
      (4 - 1 ≤ Z.of_nat i →
         out !! i = Some (Fin (window_mean Sample.closes_q (Z.to_nat 4) i))) ∧
      (Z.of_nat i < 4 - 1 → out !! i = Some NaN).
Proof. apply (sma_window_mean Sample.closes_q 4). lia. Defined.

(** In double precision the rolling mean is as expected while nothing
    overflows: over the prices 10 and 11 with a window of two it is
    missing at index 0 and 10.5 at index 1. *)
Example mean_head_sample :
  Double.mean_head [Double.of_Z 10 0; Double.of_Z 11 0] 2 0 = Double.nan ∧
  Double.mean_head [Double.of_Z 10 0; Double.of_Z 11 0] 2 1 = Double.of_Z 21 (-1) ∧
  (∃ m : Q, Double.exact (Double.of_Z 21 (-1)) = Some m ∧
            Qeq_bool m (21 / 2) = true).
Proof.
  split; [by vm_compute|]. split; [by vm_compute|].
  eexists. split; [reflexivity|]. by vm_compute.
Qed.

(** C4, as the claim states it, fails in double precision: over the two
    finite prices [2^1023] and [3 * 2^1022] with a window of two, the
    window sum overflows and the average at index 1 is [+inf], not the
    mean [5 * 2^1021] of the two prices, which is a double itself. *)
Lemma sma_overflows :
  Double.exact (Double.of_Z 1 1023) = Some (2 ^ 1023)%Q ∧
  Double.exact (Double.of_Z 3 1022) = Some (3 * 2 ^ 1022)%Q ∧
  Double.mean_head [Double.of_Z 1 1023; Double.of_Z 3 1022] 2 1 = Double.inf ∧
  Double.exact Double.inf = None ∧
  (∃ m : Q, Double.exact (Double.of_Z 5 1021) = Some m ∧
            Qeq_bool m ((2 ^ 1023 + 3 * 2 ^ 1022) / 2) = true).
Proof.
  split; [by vm_compute|]. split; [by vm_compute|]. split; [by vm_compute|].
  split; [done|]. eexists. split; [reflexivity|]. by vm_compute.
Qed.

End Indicators.

(* ===================================================================== *)
(** * Returns *)
(* ===================================================================== *)

Section Returns.

Import ReturnCalculator.







End Returns.

(* ===================================================================== *)
(** * The relative-strength oscillator *)
(* ===================================================================== *)

Section Rsi.

Import TechnicalIndicators Reference.

Lemma rolling_ok (s : Series) (W : Z) :
  0 ≤ W →
  rolling s (VInt W) =
    Ok {| obj := s; window := Z.to_nat W; min_periods := Z.to_nat W |}.
Proof. intros HW. unfold rolling. destruct (Z.ltb_spec W 0); [lia|done]. Qed.

Lemma length_shift (s : Series) : length (shift s) = length s.
Proof. unfold shift. rewrite length_take. simpl. lia. Qed.

Lemma length_diff (s : Series) : length (diff s) = length s.
Proof. unfold diff. rewrite length_zip_with, length_shift. lia. Qed.

(** A rolling mean is a number or missing, never an infinity. *)
Lemma mean_at_cases (r : Rolling) (i : nat) :
  mean_at r i = NaN ∨ ∃ q, mean_at r i = Fin q.
Proof. unfold mean_at. destruct (_ && _); eauto. Qed.

Lemma mean_cases (r : Rolling) (i : nat) (y : float) :
  roll_mean r !! i = Some y → y = NaN ∨ ∃ q, y = Fin q.
Proof.
  unfold roll_mean. rewrite list_lookup_fmap.
  destruct (seq 0 (length (obj r)) !! i) as [k|]; [|done].
  intros [= <-]. apply mean_at_cases.
Qed.

(** The rolling mean of a series without negative numbers is not
    negative. *)
Lemma mean_nonneg (r : Rolling) (i : nat) (g : Qc) :
  Forall (λ x, ∀ q, x = Fin q → (0 ≤ q)%Qc) (obj r) →
  roll_mean r !! i = Some (Fin g) → (0 ≤ g)%Qc.
Proof.
  intros Hobj. unfold roll_mean. rewrite list_lookup_fmap.
  destruct (seq 0 (length (obj r)) !! i) as [k|]; [|done].
  intros [= Hm]. revert Hm. unfold mean_at. rewrite omap_observation_prep.
  destruct (_ && _); [|done]. intros [= <-].
  apply Qcmult_nonneg; [|apply Qcinv_nonneg, Qc_of_nat_nonneg].
  apply Qc_sum_nonneg, list.Forall_forall. intros q Hq.
  apply list_elem_of_omap in Hq as (x & Hx & Hxq).
  unfold window_at in Hx. apply subseteq_take, subseteq_drop in Hx.
  destruct x as [q'| | |]; try done. injection Hxq as ->.
  by apply (proj1 (list.Forall_forall _ _) Hobj (Fin q)).
Qed.

Lemma where_gain_nonneg (delta : Series) :
  Forall (λ x, ∀ q, x = Fin q → (0 ≤ q)%Qc)
    (where_ delta (λ d, Float.gtb d (of_Z 0)) (of_Z 0)).
Proof.
  unfold where_. apply Forall_fmap, list.Forall_forall. intros d _ q.
  unfold compose. destruct (Float.gtb d (of_Z 0)) eqn:E.
  - intros ->. unfold Float.gtb, of_Z in E. cbn in E.
    apply bool_decide_eq_true in E. rewrite Qc_of_Z_0 in E.
    by apply Qclt_le_weak.
  - unfold of_Z. intros [= <-]. by rewrite Qc_of_Z_0.
Qed.

Lemma rsi_value_zero_loss_nonzero_gain (g : Qc) :
  g ≠ 0%Qc → rsi_value (Fin g) (Fin 0%Qc) = of_Z 100.
Proof.
  intros Hg. unfold rsi_value, of_Z. cbn [Float.div].
  rewrite bool_decide_eq_true_2, (bool_decide_eq_false_2 (g = 0%Qc)) by done.
  destruct (bool_decide (0 < g)%Qc); cbn; f_equal; apply Qc_is_canon; reflexivity.
Qed.

Lemma rsi_value_zero_loss_zero_gain : rsi_value (Fin 0%Qc) (Fin 0%Qc) = NaN.
Proof. reflexivity. Qed.

Lemma rsi_value_nan_gain (loss : float) : rsi_value NaN loss = NaN.
Proof. reflexivity. Qed.

Lemma fmap_zip_with_rsi (gain loss : Series) :
  (λ r, of_Z 100 - of_Z 100 / (of_Z 1 + r))%float <$> zip_with Float.div gain loss
  = zip_with rsi_value gain loss.
Proof.
  revert loss. induction gain as [|g gain IH]; intros [|l loss]; try done.
  cbn [zip_with fmap list_fmap]. f_equal. apply IH.
Qed.

Lemma rsi_means (delta : Series) (W : Z) :
  0 ≤ W < 2 ^ 63 →
  rsi_gain delta (VInt W)
  = Ok (roll_mean {| obj := where_ delta (λ d, Float.gtb d (of_Z 0)) (of_Z 0);
                     window := Z.to_nat W; min_periods := Z.to_nat W |}) ∧
  rsi_loss delta (VInt W)
  = Ok (roll_mean {| obj := Float.neg <$>
                              where_ delta (λ d, Float.ltb d (of_Z 0)) (of_Z 0);
                     window := Z.to_nat W; min_periods := Z.to_nat W |}).
Proof.
  intros HW. unfold rsi_gain, rsi_loss. rewrite !rolling_ok by lia.
  cbn [mbind result_bind].
  split; apply mean_ok; right; cbn [window]; lia.
Qed.

Lemma rsi_eval (prices : Series) (W : Z) :
  0 ≤ W < 2 ^ 63 →
  ∃ gain loss : Series,
    rsi_gain (diff prices) (VInt W) = Ok gain ∧
    rsi_loss (diff prices) (VInt W) = Ok loss ∧
    length gain = length prices ∧
    length loss = length prices ∧
    (∀ i y, gain !! i = Some y → y = NaN ∨ ∃ q, y = Fin q ∧ (0 ≤ q)%Qc) ∧
    rsi prices (VInt W) = Ok (zip_with rsi_value gain loss).
Proof.
  intros HW. destruct (rsi_means (diff prices) W HW) as [Eg El].
  unfold rsi. rewrite Eg, El.
  do 2 eexists. split; [reflexivity|]. split; [reflexivity|].
  split; [|split; [|split]].
  - by rewrite length_mean; simpl; unfold where_; rewrite length_fmap, length_diff.
  - by rewrite length_mean; simpl; unfold where_; rewrite !length_fmap, length_diff.
  - intros i y Hy. destruct (mean_cases _ _ _ Hy) as [-> | [q ->]]; [by left|].
    right. exists q. split; [done|].
    eapply mean_nonneg; [|exact Hy]. apply where_gain_nonneg.
  - cbn [mbind result_bind mret result_ret]. rewrite <- fmap_zip_with_rsi. reflexivity.
Qed.

(** With all deltas equal to zero or missing, both sources of the
    rolling means are series of zeros. *)
Lemma where_flat (delta : Series) (cmp : float → bool) :
  (∀ d, d = NaN ∨ d = Fin 0%Qc → cmp d = false) →
  Forall (λ d, d = NaN ∨ d = Fin 0%Qc) delta →
  where_ delta cmp (of_Z 0) = replicate (length delta) (Fin 0%Qc).
Proof.
  intros Hcmp Hd. induction Hd as [|d delta Hd _ IH]; [done|].
  cbn. rewrite Hcmp by done. unfold where_, of_Z in *. rewrite Qc_of_Z_0 in *.
  f_equal. apply IH.
Qed.

Lemma diff_constant (x : float) (n : nat) :
  Forall (λ d, d = NaN ∨ d = Fin 0%Qc) (diff (replicate n x)).
Proof.
  unfold diff, shift. rewrite length_replicate.
  apply Forall_lookup_2. intros i d. rewrite lookup_zip_with.
  destruct (replicate n x !! i) as [a|] eqn:Ea; [|done]. cbn.
  apply lookup_replicate in Ea as [-> Hi].
  rewrite lookup_take_lt by done.
  destruct i as [|i].
  - cbn. intros [= <-]. left. by destruct x.
  - change ((NaN :: replicate n x) !! S i) with (replicate n x !! i).
    rewrite lookup_replicate_2 by lia. cbn. intros [= <-]. apply sub_self.
Qed.

(** The rolling mean of a series of zeros is zero wherever it is defined. *)
Lemma mean_zeros (m w : nat) (i : nat) (y : float) :
  roll_mean {| obj := replicate m (Fin 0%Qc); window := w; min_periods := w |} !! i
    = Some y →
  y = NaN ∨ y = Fin 0%Qc.
Proof.
  unfold roll_mean. rewrite list_lookup_fmap.
  destruct (seq _ _ !! i) as [k|]; [|done]. intros [= <-].
  unfold mean_at. rewrite omap_observation_prep.
  destruct (_ && _) eqn:E; [|by left]. right.
  rewrite Qc_sum_zeros; [f_equal; unfold Qcdiv; ring|].
  unfold window_at. cbn [obj window].
  rewrite drop_replicate, take_replicate.
  apply Forall_lookup_2. intros j q Hq.
  apply list_elem_of_lookup_2, list_elem_of_omap in Hq as (z & Hz & Hzq).
  apply elem_of_replicate in Hz as [-> _]. by injection Hzq.
Qed.

Lemma rsi_value_flat (y : float) :
  y = NaN ∨ y = Fin 0%Qc → rsi_value y y = NaN.
Proof. by intros [-> | ->]. Qed.

(** C6, as the code has it. For a window [0 <= W < 2^63], [rsi] returns
    a series aligned with the prices and does not raise. At an index where the
    rolling mean of the losses is zero, the output is missing when the
    rolling mean of the gains is zero or missing, and it is 100 when the
    rolling mean of the gains is positive; a rolling mean of gains is
    never negative, so nothing else occurs. For a constant price series
    every position of the output is missing. *)
Theorem rsi_zero_loss (prices : Series) (W : Z) :
  0 ≤ W < 2 ^ 63 →
  ∃ gain loss out : Series,
    rsi_gain (diff prices) (VInt W) = Ok gain ∧
    rsi_loss (diff prices) (VInt W) = Ok loss ∧
    rsi prices (VInt W) = Ok out ∧
    length out = length prices ∧
    (∀ i : nat,
       loss !! i = Some (Fin 0%Qc) →
       (gain !! i = Some NaN ∧ out !! i = Some NaN) ∨
       (gain !! i = Some (Fin 0%Qc) ∧ out !! i = Some NaN) ∨
       (∃ g : Qc, (0 < g)%Qc ∧ gain !! i = Some (Fin g) ∧
                  out !! i = Some (of_Z 100))) ∧
    (∀ (x : float) (n : nat), prices = replicate n x → out = replicate n NaN).
Proof.
  intros HW.
  destruct (rsi_eval prices W HW) as (gain & loss & Hg & Hl & Hlg & Hll & Hcases & Hr).
  exists gain, loss, (zip_with rsi_value gain loss).
  do 3 (split; [done|]).
  split; [rewrite length_zip_with; lia|]. split.
  - intros i Hi. rewrite lookup_zip_with, Hi.
    destruct (lookup_lt_is_Some_2 gain i) as [y Hy].
    { apply lookup_lt_Some in Hi. lia. }
    rewrite Hy. cbn [mbind option_bind].
    destruct (Hcases i y Hy) as [-> | (q & -> & Hq0)]; [by left|].
    destruct (Qcle_lt_or_eq _ _ Hq0) as [Hq | <-].
    + right; right. exists q. rewrite rsi_value_zero_loss_nonzero_gain; [done|].
      intros ->. by apply (Qclt_irrefl 0%Qc).
    + right; left. done.
  - intros x n ->.
    destruct (rsi_means (diff (replicate n x)) W HW) as [Eg El].
    rewrite Eg in Hg. rewrite El in Hl.
    pose proof (diff_constant x n) as Hd.
    rewrite where_flat in Hg, Hl; [|by intros d [-> | ->]|done|by intros d [-> | ->]|done].
    rewrite fmap_replicate in Hl.
    replace (- Fin 0%Qc)%float with (Fin 0%Qc) in Hl
      by (cbn; f_equal; by apply Qc_is_canon).
    injection Hg as <-. injection Hl as <-.
    symmetry. apply replicate_as_Forall. split.
    + rewrite length_zip_with, length_mean. cbn [obj].
      rewrite length_replicate, length_diff, length_replicate. lia.
    + apply Forall_lookup_2. intros i r. rewrite lookup_zip_with.
      destruct (roll_mean _ !! i) as [y|] eqn:Ey; [|done]. cbn [mbind option_bind].
      intros [= <-]. symmetry. apply rsi_value_flat. by eapply mean_zeros.
Qed.

Lemma rsi_zero_loss_witness :
  ∃ out : Series,
    rsi (of_Z <$> [1; 2; 3]) (VInt 2) = Ok out ∧ length out = 3%nat.
Proof.
  destruct (rsi_zero_loss (of_Z <$> [1; 2; 3]) 2) as (g & l & out & _ & _ & E & L & _);
    [lia|].
  by exists out.
Defined.

(** C6, as the claim states it, fails: over the rising prices 1, 2, 3 and
    a window of two, the rolling mean of the losses is zero at indices 1
    and 2, and the output there is 100, not a missing value. *)
Lemma rsi_zero_loss_defined :
  rsi_loss (diff (of_Z <$> [1; 2; 3])) (VInt 2) = Ok [NaN; of_Z 0; of_Z 0] ∧
  rsi (of_Z <$> [1; 2; 3]) (VInt 2) = Ok [NaN; of_Z 100; of_Z 100] ∧
  of_Z 100 ≠ NaN.
Proof.
  split; [|split]; [| |done];
    apply (bool_decide_unpack _); vm_compute; exact I.
Qed.

End Rsi.

(* ===================================================================== *)
(** * The exponential moving average *)
(* ===================================================================== *)

Section Ema.

Import TechnicalIndicators Reference.

#[local] Open Scope Qc_scope.

(** The centre of mass and the smoothing factor of a span [S >= 1]. *)
Lemma com_nonneg (span : Z) : (1 ≤ span)%Z → 0 ≤ (Qc_of_Z span - 1) / 2.
Proof.
  intros HS. apply Qcmult_nonneg; [|done].
  pose proof (Qc_of_Z_le 1 span HS) as H.
  apply Qcle_minus_iff in H. by rewrite Qc_of_Z_1 in H.
Qed.

Lemma decay_nonneg (c : Qc) : 0 ≤ c → 0 ≤ 1 - 1 / (1 + c).
Proof.
  intros Hc. pose proof (Qc_ge_1_nonzero _ (Qcplus_one_nonneg c Hc)) as Hnz.
  replace (1 - 1 / (1 + c)) with (c * / (1 + c)) by (by field).
  apply Qcmult_nonneg; [done|]. apply Qcinv_nonneg.
  eapply Qcle_trans; [|apply (Qcplus_one_nonneg c Hc)]. done.
Qed.














End Ema.

(* ===================================================================== *)
(** * Parameters, errors and the life cycle of a strategy object *)
(* ===================================================================== *)

Section StrategyObject.

Import BaseStrategy TechnicalIndicators MovingAverageCrossover.

(** X1. The parameter mapping behaves as a map: [get_parameter] after
    [set_parameter] of the same key returns the value set, whatever the
    default; another key reads as before; a key that was never set reads
    as the default; [set_parameter] touches no other attribute. *)
Theorem set_parameter_get_parameter (self : state) (key : string) (v dflt : value) :
  let self' := (set_parameter key v self).2 in
  set_parameter key v self = (Ok tt, self') ∧
  get_parameter key dflt self' = (Ok v, self') ∧
  (∀ key', key' ≠ key →
     (get_parameter key' dflt self').1 = (get_parameter key' dflt self).1) ∧
  (parameters self !! key = None → get_parameter key dflt self = (Ok dflt, self)) ∧
  name self' = name self ∧ signals self' = signals self ∧
  data self' = data self ∧ initialized self' = initialized self.
Proof.
  cbn. split; [done|]. split; [|split; [|split]].
  - unfold get_parameter, gets. cbn. by rewrite lookup_insert_eq.
  - intros key' Hne. unfold get_parameter, gets. cbn.
    by rewrite lookup_insert_ne.
  - intros Hnone. unfold get_parameter, gets. by rewrite Hnone.
  - done.
Qed.

Lemma generate_signals_no_close (self : state) (d : DataFrame) :
  columns d !! "Close" = None →
  MovingAverageCrossover.generate_signals d self = (Raise (KeyError "Close"), self).
Proof.
  intros Hc. unfold MovingAverageCrossover.generate_signals.
  rewrite (bind_ok _ _ _ _ _ (get_parameter_run self "short_window" VNone)).
  rewrite (bind_ok _ _ _ _ _ (get_parameter_run self "long_window" VNone)).
  unfold getitem. by rewrite Hc.
Qed.

(** X2. Without a Close column the crossover raises [KeyError('Close')],
    whatever its parameters are, and leaves [self] alone. *)
Theorem generate_signals_missing_close (self : state) (d : DataFrame) :
  columns d !! "Close" = None →
  MovingAverageCrossover.generate_signals d self = (Raise (KeyError "Close"), self).
Proof. apply generate_signals_no_close. Qed.

Lemma generate_signals_missing_close_witness :
  MovingAverageCrossover.generate_signals Sample.open_frame Sample.strategy
  = (Raise (KeyError "Close"), Sample.strategy).
Proof. apply generate_signals_missing_close. reflexivity. Defined.

Lemma sma_invalid (prices : Series) (w : value) :
  ¬ Notions.valid_window w →
  sma prices w = Raise (ValueError "window must be an integer 0 or greater").
Proof.
  intros Hw. unfold sma, rolling. destruct w as [|z]; [done|].
  cbn in Hw. destruct (Z.ltb_spec z 0); [done|lia].
Qed.

Lemma sma_fits (prices : Series) (w : value) :
  Notions.window_fits prices w →
  ∃ out, sma prices w = Ok out ∧ length out = length prices.
Proof.
  destruct w as [|z]; [done|]. unfold Notions.window_fits. intros [Hz Hfit].
  exists (roll_mean {| obj := prices; window := Z.to_nat z; min_periods := Z.to_nat z |}).
  split; [|by rewrite length_mean].
  unfold sma. rewrite rolling_valid by done. cbn [mbind result_bind].
  apply mean_ok. cbn [obj window]. destruct Hfit; [by left|right; lia].
Qed.

Lemma sma_too_large (prices : Series) (w : value) :
  Notions.valid_window w → ¬ Notions.window_fits prices w →
  sma prices w = Raise OverflowError.
Proof.
  destruct w as [|z]; [done|].
  unfold Notions.window_fits, Notions.valid_window. intros Hz Hfit.
  apply sma_overflow; [|lia]. intros ->. apply Hfit. by split; [|left].
Qed.

Lemma window_fits_valid (prices : Series) (w : value) :
  Notions.window_fits prices w → Notions.valid_window w.
Proof. destruct w as [|z]; [done|]. cbn. tauto. Qed.

Lemma window_fits_dec (prices : Series) (w : value) :
  Notions.window_fits prices w ∨ ¬ Notions.window_fits prices w.
Proof.
  destruct w as [|z]; cbn; [tauto|].
  destruct (decide (prices = [])); destruct (Z_lt_dec z (2 ^ 63));
    destruct (Z_le_dec 0 z); tauto.
Qed.

Lemma valid_window_dec (w : value) :
  Notions.valid_window w ∨ ¬ Notions.valid_window w.
Proof. destruct w as [|z]; cbn; [tauto|]. lia. Qed.

Lemma iloc_ok {A} (s : list A) (i : Z) :
  - Z.of_nat (length s) ≤ i < Z.of_nat (length s) → ∃ x, iloc s i = Ok x.
Proof.
  intros Hi. unfold iloc.
  set (j := if i <? 0 then Z.of_nat (length s) + i else i).
  assert (0 ≤ j < Z.of_nat (length s)) as Hj.
  { unfold j. destruct (Z.ltb_spec i 0); lia. }
  destruct (Z.leb_spec 0 j); [|lia].
  destruct (Z.ltb_spec j (Z.of_nat (length s))); [|lia]. cbn.
  destruct (lookup_lt_is_Some_2 s (Z.to_nat j)) as [x ->]; [lia|]. eauto.
Qed.

(** Inside the series every iteration of the loop goes through. *)
Lemma loop_body_returns (self : state) (d : DataFrame) (close short_ma long_ma : Series)
    (i : Z) (acc : list Signal) :
  columns d !! "Close" = Some close →
  length close = length (index d) →
  length short_ma = length close →
  length long_ma = length close →
  0 ≤ i < len d →
  ∃ acc', loop_body d short_ma long_ma i acc self = (Ok acc', self).
Proof.
  intros Hc Hlen Hsl Hll Hi. unfold loop_body, len in *.
  destruct (iloc_ok short_ma i) as [cs ->]; [lia|].
  destruct (iloc_ok long_ma i) as [cl ->]; [lia|].
  destruct (iloc_ok short_ma (i - 1)) as [ps ->]; [lia|].
  destruct (iloc_ok long_ma (i - 1)) as [pl ->]; [lia|].
  rewrite !bind_lift_ok.
  destruct (_ && _).
  - rewrite (make_signal_eval d close) by (unfold len; auto with lia).
    rewrite bind_lift_ok. eauto.
  - destruct (_ && _); [|eauto].
    rewrite (make_signal_eval d close) by (unfold len; auto with lia).
    rewrite bind_lift_ok. eauto.
Qed.

Lemma for_loop_body_returns (self : state) (d : DataFrame)
    (close short_ma long_ma : Series) (l : list Z) (acc : list Signal) :
  columns d !! "Close" = Some close →
  length close = length (index d) →
  length short_ma = length close →
  length long_ma = length close →
  Forall (λ i, 0 ≤ i < len d) l →
  ∃ sigs, for_ l (loop_body d short_ma long_ma) acc self = (Ok sigs, self).
Proof.
  intros Hc Hlen Hsl Hll Hl. revert acc.
  induction Hl as [|i l Hi Hl IH]; intros acc; [by eexists|].
  cbn [for_].
  destruct (loop_body_returns self d close short_ma long_ma i acc Hc Hlen Hsl Hll Hi)
    as [acc' E].
  rewrite (bind_ok _ _ _ _ _ E). apply IH.
Qed.

(** X3. Over a frame with a Close column, the crossover returns exactly
    when both windows are sizes the rolling mean goes through with:
    non-negative integers, below [2^63] unless the column is empty.
    Otherwise it raises the error of the first window that fails, the
    short one first: the [ValueError] of [rolling] for a negative or
    missing window, the [OverflowError] of the aggregation for a window
    of [2^63] or more. In every case [self] is left alone. *)
Theorem generate_signals_returns_iff (self : state) (d : DataFrame) (close : Series) :
  columns d !! "Close" = Some close →
  length close = length (index d) →
  let short_window := Notions.parameter self "short_window" in
  let long_window := Notions.parameter self "long_window" in
  let value_error := ValueError "window must be an integer 0 or greater" in
  let overflow_error := OverflowError in
  ((∃ sigs, MovingAverageCrossover.generate_signals d self = (Ok sigs, self)) ↔
     Notions.window_fits close short_window ∧
     Notions.window_fits close long_window) ∧
  (¬ Notions.valid_window short_window →
     MovingAverageCrossover.generate_signals d self = (Raise value_error, self)) ∧
  (Notions.valid_window short_window →
   ¬ Notions.window_fits close short_window →
     MovingAverageCrossover.generate_signals d self = (Raise overflow_error, self)) ∧
  (Notions.window_fits close short_window →
   ¬ Notions.valid_window long_window →
     MovingAverageCrossover.generate_signals d self = (Raise value_error, self)) ∧
  (Notions.window_fits close short_window →
   Notions.valid_window long_window →
   ¬ Notions.window_fits close long_window →
     MovingAverageCrossover.generate_signals d self = (Raise overflow_error, self)).
Proof.
  intros Hc Hlen sw lw value_error overflow_error.
  assert (MovingAverageCrossover.generate_signals d self =
          (short_ma ← lift (sma close sw);
           long_ma ← lift (sma close lw);
           start ← lift (as_int lw);
           for_ (range start (len d)) (loop_body d short_ma long_ma) []) self) as E.
  { unfold MovingAverageCrossover.generate_signals.
    rewrite (bind_ok _ _ _ _ _ (get_parameter_run self "short_window" VNone)).
    rewrite (bind_ok _ _ _ _ _ (get_parameter_run self "long_window" VNone)).
    change (default VNone (parameters self !! "short_window")) with sw.
    change (default VNone (parameters self !! "long_window")) with lw.
    unfold getitem. rewrite Hc, bind_lift_ok.
    destruct (sma close sw) as [short_ma|e]; [|done].
    by rewrite !bind_lift_ok. }
  rewrite E. clear E.
  assert (¬ Notions.valid_window sw →
          (short_ma ← lift (sma close sw);
           long_ma ← lift (sma close lw);
           start ← lift (as_int lw);
           for_ (range start (len d)) (loop_body d short_ma long_ma) []) self
          = (Raise value_error, self)) as H1.
  { intros Hsw. rewrite (sma_invalid close sw Hsw). by rewrite bind_lift_raise. }
  assert (Notions.valid_window sw → ¬ Notions.window_fits close sw →
          (short_ma ← lift (sma close sw);
           long_ma ← lift (sma close lw);
           start ← lift (as_int lw);
           for_ (range start (len d)) (loop_body d short_ma long_ma) []) self
          = (Raise overflow_error, self)) as H2.
  { intros Hv Hsw. rewrite (sma_too_large close sw Hv Hsw). by rewrite bind_lift_raise. }
  assert (Notions.window_fits close sw → ¬ Notions.valid_window lw →
          (short_ma ← lift (sma close sw);
           long_ma ← lift (sma close lw);
           start ← lift (as_int lw);
           for_ (range start (len d)) (loop_body d short_ma long_ma) []) self
          = (Raise value_error, self)) as H3.
  { intros Hsw Hlw. destruct (sma_fits close sw Hsw) as (short_ma & -> & _).
    rewrite bind_lift_ok, (sma_invalid close lw Hlw). by rewrite bind_lift_raise. }
  assert (Notions.window_fits close sw → Notions.valid_window lw →
          ¬ Notions.window_fits close lw →
          (short_ma ← lift (sma close sw);
           long_ma ← lift (sma close lw);
           start ← lift (as_int lw);
           for_ (range start (len d)) (loop_body d short_ma long_ma) []) self
          = (Raise overflow_error, self)) as H4.
  { intros Hsw Hv Hlw. destruct (sma_fits close sw Hsw) as (short_ma & -> & _).
    rewrite bind_lift_ok, (sma_too_large close lw Hv Hlw). by rewrite bind_lift_raise. }
  split; [|done]. split.
  - intros [sigs Hs].
    destruct (window_fits_dec close sw) as [Hsw|Hsw].
    + split; [done|]. destruct (window_fits_dec close lw) as [Hlw|Hlw]; [done|].
      destruct (valid_window_dec lw) as [Hv|Hv].
      * by rewrite (H4 Hsw Hv Hlw) in Hs.
      * by rewrite (H3 Hsw Hv) in Hs.
    + destruct (valid_window_dec sw) as [Hv|Hv].
      * by rewrite (H2 Hv Hsw) in Hs.
      * by rewrite (H1 Hv) in Hs.
  - intros [Hsw Hlw].
    destruct (sma_fits close sw Hsw) as (short_ma & -> & Hsl).
    destruct (sma_fits close lw Hlw) as (long_ma & -> & Hll).
    rewrite !bind_lift_ok. destruct lw as [|Wl]; [done|]. cbn in Hlw.
    cbn [as_int]. rewrite bind_lift_ok.
    apply (for_loop_body_returns self d close); try done.
    eapply list.Forall_impl; [apply range_bounds|]. cbn. lia.
Qed.

Lemma generate_signals_returns_iff_witness :
  MovingAverageCrossover.generate_signals Sample.frame
    (MovingAverageCrossover.init (VInt (-1)) (VInt 4))
  = (Raise (ValueError "window must be an integer 0 or greater"),
     MovingAverageCrossover.init (VInt (-1)) (VInt 4)).
Proof.
  refine (proj1 (proj2 (generate_signals_returns_iff
                          (MovingAverageCrossover.init (VInt (-1)) (VInt 4))
                          Sample.frame Sample.closes _ _)) _);
    [reflexivity | reflexivity |].
  intros H. vm_compute in H. exact (H eq_refl).
Defined.

Lemma update_state (self : state) (r : RowSeries) :
  initialized self = true →
  (update r self).2 =
    (set_data (from_option (λ d0, append d0 (to_frame_T r)) (to_frame_T r) (data self))
       self).2.
Proof.
  intros Hi. rewrite update_eval by done. cbn [snd].
  apply (generate_signals_observer _ _).
Qed.

(** X4. [update] is not atomic: on an initialized crossover whose bound
    series and new record both lack Close, the call raises
    [KeyError('Close')], and the record has been appended to the bound
    series all the same. *)
Theorem update_failure_keeps_record (self : state) (d : DataFrame) (r : RowSeries) :
  initialized self = true →
  data self = Some d →
  columns d !! "Close" = None →
  fields r !! "Close" = None →
  update r self =
    (Raise (KeyError "Close"),
     {| name := name self;
        parameters := parameters self;
        signals := signals self;
        data := Some (append d (to_frame_T r));
        initialized := true |}).
Proof.
  intros Hi Hd Hc Hr. rewrite update_eval by done. cbv zeta. rewrite Hd.
  cbn [from_option].
  change (BaseStrategy.generate_signals ?x ?y)
    with (MovingAverageCrossover.generate_signals x y).
  rewrite generate_signals_no_close.
  - cbn. by rewrite Hi.
  - unfold tail, append, to_frame_T. cbn [columns].
    by rewrite lookup_fmap, lookup_merge, Hc, lookup_fmap, Hr.
Qed.

Lemma update_failure_keeps_record_witness :
  let self := (initialize Sample.open_frame Sample.strategy).2 in
  (update Sample.open_record self).1 = Raise (KeyError "Close") ∧
  data (update Sample.open_record self).2
  = Some (append Sample.open_frame (to_frame_T Sample.open_record)).
Proof.
  cbv zeta.
  rewrite (update_failure_keeps_record
             (initialize Sample.open_frame Sample.strategy).2
             Sample.open_frame Sample.open_record
             eq_refl eq_refl eq_refl eq_refl).
  done.
Defined.

(** What one call leaves of the object. *)
Lemma after_frame (c : Session.call) (self : state) :
  signals (Session.after c self) = signals self ∧
  name (Session.after c self) = name self ∧
  (initialized self = true → initialized (Session.after c self) = true).
Proof.
  destruct c as [d|r|d|key dflt|key v|d|d]; cbn [Session.after]; try done.
  - destruct (initialized self) eqn:Hi.
    + rewrite update_state by done. unfold set_data, modify. cbn. auto.
    + rewrite update_uninitialized by done. cbn. by repeat split.
  - change (BaseStrategy.generate_signals d self)
      with (MovingAverageCrossover.generate_signals d self).
    by rewrite (proj1 (generate_signals_observer d self)).
Qed.

Lemma run_frame (calls : list Session.call) (self : state) :
  signals (Session.run calls self) = signals self ∧
  name (Session.run calls self) = name self ∧
  (initialized self = true → initialized (Session.run calls self) = true).
Proof.
  revert self. induction calls as [|c calls IH]; intros self; [done|].
  unfold Session.run in *. cbn [foldl].
  destruct (IH (Session.after c self)) as (-> & -> & Hi).
  destruct (after_frame c self) as (-> & -> & Hi'). auto.
Qed.

(** X5. No method of the framework writes the [signals] attribute:
    whatever sequence of calls a client makes on a crossover, the
    collected signals and the name stay as they were and an initialized
    object stays initialized. So the performance summary of a crossover
    that was only driven through its methods reports zero signals. *)
Theorem signals_never_recorded (calls : list Session.call) (self : state) :
  signals (Session.run calls self) = signals self ∧
  name (Session.run calls self) = name self ∧
  (initialized self = true → initialized (Session.run calls self) = true) ∧
  (∀ short_window long_window : value,
     performance_summary
       (Session.run calls (MovingAverageCrossover.init short_window long_window))
     = Summary {[ "total_signals" := Int 0 ]}).
Proof.
  destruct (run_frame calls self) as (Hs & Hn & Hi).
  split; [done|]. split; [done|]. split; [done|].
  intros sw lw. unfold performance_summary, get_signals_dataframe.
  by rewrite (proj1 (run_frame calls _)).
Qed.

Lemma count_signal_type (ty : SignalType) (sigs : list Signal) :
  count_signal (SignalType_value ty)
    ((λ signal, {| row_timestamp := timestamp signal;
                   row_symbol := symbol signal;
                   row_signal := SignalType_value (signal_type signal);
                   row_strength := strength signal;
                   row_price := price signal |}) <$> sigs)
  = Notions.count_type ty sigs.
Proof.
  unfold count_signal, Notions.count_type. f_equal.
  induction sigs as [|s sigs IH]; [done|].
  rewrite fmap_cons, !filter_cons. cbn [row_signal].
  destruct (decide (signal_type s = ty)) as [<-|Hne].
  - rewrite decide_True by done. cbn. by rewrite IH.
  - rewrite decide_False; [done|].
    by destruct (signal_type s), ty.
Qed.

Lemma count_type_total (sigs : list Signal) :
  Z.of_nat (length sigs)
  = Notions.count_type BUY sigs + Notions.count_type SELL sigs
    + Notions.count_type HOLD sigs.
Proof.
  unfold Notions.count_type.
  induction sigs as [|s sigs IH]; [done|].
  rewrite !filter_cons. cbn [length].
  destruct (signal_type s); repeat case_decide; try done; cbn [length]; lia.
Qed.

(** X6. The cases of [performance_summary]. Without collected signals it
    reports zero signals, also over an empty bound series. With collected
    signals it reports their number, the number of Buys and of Sells (the
    total is Buys plus Sells plus Holds) and the frequency [total /
    len(data)]; the frequency is 0 when no series is bound, and the call
    raises [ZeroDivisionError] when the bound series has no row. *)
Theorem performance_summary_cases (self : state) :
  let total := Z.of_nat (length (signals self)) in
  let report (frequency : number) :=
    Summary {[ "total_signals" := Int total;
               "buy_signals" := Int (Notions.count_type BUY (signals self));
               "sell_signals" := Int (Notions.count_type SELL (signals self));
               "signal_frequency" := frequency ]} in
  (signals self = [] →
     performance_summary self = Summary {[ "total_signals" := Int 0 ]}) ∧
  (signals self ≠ [] → data self = None →
     performance_summary self = report (Int 0)) ∧
  (∀ d, signals self ≠ [] → data self = Some d → len d = 0 →
     performance_summary self = ZeroDivisionError "division by zero") ∧
  (∀ d, signals self ≠ [] → data self = Some d → len d ≠ 0 →
     performance_summary self = report (Float_ (of_Z total / of_Z (len d))%float)) ∧
  total = Notions.count_type BUY (signals self)
          + Notions.count_type SELL (signals self)
          + Notions.count_type HOLD (signals self).
Proof.
  intros total report. unfold performance_summary.
  destruct (get_signals_dataframe self) as [|row rows] eqn:Edf.
  - assert (signals self = []) as Es.
    { unfold get_signals_dataframe in Edf. by apply fmap_nil_inv in Edf. }
    repeat split; try done. unfold total. rewrite Es. apply (count_type_total []).
  - assert (signals self ≠ []) as Hne.
    { intros Es. unfold get_signals_dataframe in Edf. by rewrite Es in Edf. }
    rewrite <- Edf. unfold get_signals_dataframe.
    change 1 with (SignalType_value BUY). change (-1) with (SignalType_value SELL).
    rewrite !count_signal_type, length_fmap. fold total.
    split; [done|]. split; [by intros _ ->|]. split; [|split].
    + intros d _ -> Hd. by rewrite Hd.
    + intros d _ -> Hd. by destruct (Z.eqb_spec (len d) 0).
    + unfold total. apply count_type_total.
Qed.

Lemma wf_append_row (d : DataFrame) (r : RowSeries) :
  wf_frame d → wf_frame (append d (to_frame_T r)).
Proof.
  intros Hwf c s. unfold append, to_frame_T. cbn [columns index].
  rewrite lookup_merge, lookup_fmap, length_app. cbn [length].
  destruct (columns d !! c) as [x|] eqn:Ex, (fields r !! c) as [y|]; cbn;
    intros [= <-]; rewrite ?length_app, ?length_replicate; cbn;
    rewrite ?(Hwf _ _ Ex); lia.
Qed.

Lemma wf_tail (n : nat) (d : DataFrame) : wf_frame d → wf_frame (tail n d).
Proof.
  intros Hwf c s. unfold tail. cbn [columns index]. rewrite lookup_fmap.
  destruct (columns d !! c) as [x|] eqn:Ex; [|done]. cbn. intros [= <-].
  rewrite !length_drop, (Hwf _ _ Ex). done.
Qed.

(** X7. Updates accumulate: after an initialized crossover bound to a
    well-formed series [d] has been updated with the records [rs] in turn
    (whether or not a call raised), the bound series has the row labels
    of [d] followed by the names of the records, every column is as long
    as the index, and the object is still initialized. *)
Theorem updates_accumulate (rs : list RowSeries) (self : state) (d : DataFrame) :
  initialized self = true →
  data self = Some d →
  wf_frame d →
  let self' := Session.run (Session.Update <$> rs) self in
  ∃ d', data self' = Some d' ∧
        index d' = index d ++ (Pandas.name <$> rs) ∧
        wf_frame d' ∧
        initialized self' = true ∧
        parameters self' = parameters self.
Proof.
  revert self d. induction rs as [|r rs IH]; intros self d Hi Hd Hwf.
  - cbn. exists d. by rewrite app_nil_r.
  - cbn zeta. rewrite fmap_cons.
    change (Session.run (Session.Update r :: (Session.Update <$> rs)) self)
      with (Session.run (Session.Update <$> rs) (update r self).2).
    set (self1 := (update r self).2).
    assert (self1 = (set_data (append d (to_frame_T r)) self).2) as E1.
    { unfold self1. rewrite update_state by done. by rewrite Hd. }
    destruct (IH self1 (append d (to_frame_T r))) as (d' & Hd' & Hix & Hwf' & Hi' & Hp').
    + rewrite E1. cbn. by rewrite Hi.
    + by rewrite E1.
    + by apply wf_append_row.
    + exists d'. split; [done|]. split; [|split; [done|split; [done|]]].
      * rewrite Hix. cbn. by rewrite <- app_assoc.
      * rewrite Hp', E1. done.
Qed.

Lemma updates_accumulate_witness :
  ∃ d', data (Session.run (Session.Update <$> [Sample.record; Sample.record])
                (initialize Sample.frame Sample.strategy).2) = Some d' ∧
        len d' = 12.
Proof.
  destruct (updates_accumulate [Sample.record; Sample.record]
              (initialize Sample.frame Sample.strategy).2 Sample.frame
              eq_refl eq_refl
              (ohlcv_wf [100; 101; 102; 103; 104; 105; 106; 107; 108; 109]
                 Sample.closes eq_refl))
    as (d' & Hd & Hix & _).
  exists d'. split; [done|]. unfold len. by rewrite Hix.
Defined.

End StrategyObject.

(* ===================================================================== *)
(** * What the crossover emits, and when it stays silent *)
(* ===================================================================== *)

Section CrossoverFacts.

Import BaseStrategy TechnicalIndicators MovingAverageCrossover.

#[local] Open Scope Qc_scope.

Lemma Qc_of_Z_plus (a b : Z) : Qc_of_Z (a + b) = Qc_of_Z a + Qc_of_Z b.
Proof.
  apply Qc_is_canon. change (inject_Z (a + b) == Qred (inject_Z a + inject_Z b))%Q.
  by rewrite Qred_correct, inject_Z_plus.
Qed.

Lemma Qc_of_nat_S (n : nat) :
  Qc_of_Z (Z.of_nat (S n)) = 1 + Qc_of_Z (Z.of_nat n).
Proof.
  rewrite Nat2Z.inj_succ, <- Z.add_1_l, Qc_of_Z_plus. by rewrite Qc_of_Z_1.
Qed.

Lemma Qc_of_nat_nonzero (n : nat) : (0 < n)%nat → Qc_of_Z (Z.of_nat n) ≠ 0.
Proof.
  intros Hn. apply Qc_ge_1_nonzero. rewrite <- Qc_of_Z_1.
  apply Qc_of_Z_le. lia.
Qed.

Lemma Qc_sum_constant (c : Qc) (l : list Qc) :
  Forall (λ q, q = c) l → Qc_sum l = Qc_of_Z (Z.of_nat (length l)) * c.
Proof.
  induction 1 as [|q l -> _ IH].
  - change (Z.of_nat (length [])) with 0%Z. rewrite Qc_of_Z_0.
    unfold Qc_sum. cbn. ring.
  - rewrite Qc_sum_cons, IH. cbn [length]. rewrite Qc_of_nat_S. ring.
Qed.

(** The rolling mean of a constant series is that constant wherever it
    is defined. *)
Lemma mean_constant (c : Qc) (n w : nat) (i : nat) (y : float) :
  roll_mean {| obj := replicate n (Fin c); window := w; min_periods := w |} !! i
    = Some y →
  y = NaN ∨ y = Fin c.
Proof.
  unfold roll_mean. rewrite list_lookup_fmap.
  destruct (seq _ _ !! i) as [k|]; [|done]. intros [= <-].
  unfold mean_at. rewrite omap_observation_prep.
  destruct (_ && _) eqn:E; [|by left]. right.
  apply andb_true_iff in E as [_ Hpos%Nat.ltb_lt].
  rewrite (Qc_sum_constant c).
  - f_equal. field. by apply Qc_of_nat_nonzero.
  - unfold window_at. cbn [obj window].
    rewrite drop_replicate, take_replicate.
    apply list.Forall_forall. intros q Hq.
    apply list_elem_of_omap in Hq as (z & Hz & Hzq).
    apply elem_of_replicate in Hz as [-> _]. by injection Hzq.
Qed.

Lemma omap_none {A B} (f : A → option B) (l : list A) :
  Forall (λ x, f x = None) l → omap f l = [].
Proof.
  induction 1 as [|x l Hx _ IH]; [done|]. cbn. by rewrite Hx.
Qed.

Lemma omap_fmap_sublist {A B C} (f : A → option B) (g : B → C) (h : A → C)
    (l : list A) :
  (∀ x y, f x = Some y → g y = h x) →
  (g <$> omap f l) `sublist_of` (h <$> l).
Proof.
  intros Hf. induction l as [|x l IH]; [done|]. cbn.
  destruct (f x) as [y|] eqn:E; cbn.
  - rewrite (Hf x y E). by apply sublist_skip.
  - by apply sublist_cons.
Qed.

Lemma range_lookup_index (ix : list Z) (a : Z) :
  (0 ≤ a)%Z →
  (λ i, default 0%Z (ix !! Z.to_nat i)) <$> range a (Z.of_nat (length ix))
  = drop (Z.to_nat a) ix.
Proof.
  intros Ha. unfold range. rewrite <- list_fmap_compose.
  apply list_eq. intros k. rewrite list_lookup_fmap, lookup_drop.
  destruct (decide (Z.to_nat a + k < length ix)%nat) as [Hk|Hk].
  - rewrite lookup_seq_lt by lia. cbn.
    replace (Z.to_nat (a + Z.of_nat k)) with (Z.to_nat a + k)%nat by lia.
    by destruct (lookup_lt_is_Some_2 ix (Z.to_nat a + k)%nat Hk) as [x ->].
  - rewrite lookup_seq_ge by lia. cbn. symmetry. apply lookup_ge_None. lia.
Qed.

(** The signals of a run, read off the two averages. *)
Lemma generate_signals_omap (self : state) (d : DataFrame) (Ws Wl : Z) (close : Series) :
  parameters self !! "short_window" = Some (VInt Ws) →
  parameters self !! "long_window" = Some (VInt Wl) →
  columns d !! "Close" = Some close →
  length close = length (index d) →
  (0 ≤ Ws < 2 ^ 63)%Z → (1 ≤ Wl < 2 ^ 63)%Z →
  MovingAverageCrossover.generate_signals d self =
    (Ok (omap (Reference.crossover_at (index d) close
                 (roll_mean {| obj := close; window := Z.to_nat Ws;
                          min_periods := Z.to_nat Ws |})
                 (roll_mean {| obj := close; window := Z.to_nat Wl;
                          min_periods := Z.to_nat Wl |}))
           (range Wl (len d))), self).
Proof.
  intros Hs Hl Hc Hlen HWs HWl.
  rewrite (generate_signals_eval self d Ws Wl close) by auto with lia.
  apply (for_loop_body_eval self d close _ _ _ []); try done;
    try apply length_mean.
  eapply list.Forall_impl; [apply range_bounds|]. cbn. lia.
Qed.

(** X8. The signals follow the index: the row labels of the emitted
    signals are, in order, a sub-sequence of the row labels from position
    [Wl] on, so there are at most [n - Wl] signals and at most one per
    row; every signal is a Buy or a Sell (never a Hold) for the symbol
    'AAPL' with strength 1.0 and no metadata. The windows are sizes
    pandas accepts: the short one not negative, both below [2^63]. *)
Theorem signals_follow_index
    (self : state) (d : DataFrame) (Ws Wl : Z) (close : Series) :
  parameters self !! "short_window" = Some (VInt Ws) →
  parameters self !! "long_window" = Some (VInt Wl) →
  columns d !! "Close" = Some close →
  length close = length (index d) →
  (0 ≤ Ws < 2 ^ 63)%Z → (1 ≤ Wl < 2 ^ 63)%Z →
  ∃ sigs : list Signal,
    MovingAverageCrossover.generate_signals d self = (Ok sigs, self) ∧
    (timestamp <$> sigs) `sublist_of` drop (Z.to_nat Wl) (index d) ∧
    (Z.of_nat (length sigs) ≤ Z.max 0 (len d - Wl))%Z ∧
    Forall (λ signal, signal_type signal ≠ HOLD ∧ symbol signal = "AAPL" ∧
                      strength signal = of_Z 1 ∧ metadata signal = None) sigs.
Proof.
  intros Hs Hl Hc Hlen HWs HWl.
  eexists. split; [by apply (generate_signals_omap self d Ws Wl close)|].
  split; [|split].
  - unfold len. rewrite <- (range_lookup_index (index d) Wl) by lia.
    apply omap_fmap_sublist. intros i s. unfold Reference.crossover_at.
    repeat case_match; intros [= <-]; done.
  - etrans; [apply inj_le, length_omap_le|].
    unfold range. rewrite length_fmap, length_seq. lia.
  - apply list.Forall_forall. intros s Hin.
    apply list_elem_of_omap in Hin as (i & _ & Hi).
    unfold Reference.crossover_at in Hi.
    repeat case_match; try done; injection Hi as <-; done.
Qed.

Lemma signals_follow_index_witness :
  ∃ sigs : list Signal,
    MovingAverageCrossover.generate_signals Sample.frame Sample.strategy
    = (Ok sigs, Sample.strategy) ∧
    (timestamp <$> sigs) `sublist_of` [104; 105; 106; 107; 108; 109]%Z.
Proof.
  destruct (signals_follow_index Sample.strategy Sample.frame 2 4 Sample.closes)
    as (sigs & E & Hsub & _); [reflexivity..|lia|lia|].
  by exists sigs.
Defined.

(** X9. Equal windows never signal: with [short_window = long_window]
    (a size [1 <= W < 2^63]) the two averages are the same series, and no
    comparison of a value with itself is strict. (The strategy does not
    reject equal windows.) *)
Theorem equal_windows_never_signal
    (self : state) (d : DataFrame) (W : Z) (close : Series) :
  parameters self !! "short_window" = Some (VInt W) →
  parameters self !! "long_window" = Some (VInt W) →
  columns d !! "Close" = Some close →
  length close = length (index d) →
  (1 ≤ W < 2 ^ 63)%Z →
  MovingAverageCrossover.generate_signals d self = (Ok [], self).
Proof.
  intros Hs Hl Hc Hlen HW.
  rewrite (generate_signals_omap self d W W close) by auto with lia.
  rewrite omap_none; [done|].
  apply list.Forall_forall. intros i _. unfold Reference.crossover_at, Float.gtb.
  by rewrite ltb_irrefl, !andb_false_r.
Qed.

Lemma equal_windows_never_signal_witness :
  MovingAverageCrossover.generate_signals Sample.frame
    (MovingAverageCrossover.init (VInt 3) (VInt 3))
  = (Ok [], MovingAverageCrossover.init (VInt 3) (VInt 3)).
Proof.
  apply (equal_windows_never_signal _ Sample.frame 3 Sample.closes);
    [reflexivity..|lia].
Defined.

Lemma at_constant_mean (c : Qc) (n w : nat) (i : Z) :
  let y := Reference.at_
             (roll_mean {| obj := replicate n (Fin c); window := w; min_periods := w |}) i in
  y = NaN ∨ y = Fin c.
Proof.
  cbn zeta. unfold Reference.at_.
  destruct (roll_mean _ !! Z.to_nat i) as [y|] eqn:E; [|by left].
  by apply mean_constant in E.
Qed.

Lemma ltb_flat (c : Qc) (x y : float) :
  x = NaN ∨ x = Fin c → y = NaN ∨ y = Fin c → Float.ltb x y = false.
Proof.
  intros [-> | ->] [-> | ->]; try done. apply ltb_irrefl.
Qed.

(** X10. Constant prices never signal: over a Close column that holds
    one number throughout, both averages are that number wherever they
    are defined, so nothing crosses. The windows are sizes pandas
    accepts: the short one not negative, both below [2^63]. *)
Theorem constant_prices_never_signal
    (self : state) (d : DataFrame) (Ws Wl : Z) (c : Qc) :
  parameters self !! "short_window" = Some (VInt Ws) →
  parameters self !! "long_window" = Some (VInt Wl) →
  columns d !! "Close" = Some (replicate (length (index d)) (Fin c)) →
  (0 ≤ Ws < 2 ^ 63)%Z → (1 ≤ Wl < 2 ^ 63)%Z →
  MovingAverageCrossover.generate_signals d self = (Ok [], self).
Proof.
  intros Hs Hl Hc HWs HWl.
  rewrite (generate_signals_omap self d Ws Wl _ Hs Hl Hc)
    by (try apply length_replicate; done).
  rewrite omap_none; [done|].
  apply list.Forall_forall. intros i _. unfold Reference.crossover_at, Float.gtb.
  rewrite !(ltb_flat c) by apply at_constant_mean.
  by rewrite !andb_false_r.
Qed.

Lemma constant_prices_never_signal_witness :
  MovingAverageCrossover.generate_signals
    (Sample.ohlcv [1; 2; 3; 4; 5; 6]%Z (replicate 6 (Fin (Qc_of_Z 10))))
    Sample.strategy
  = (Ok [], Sample.strategy).
Proof.
  apply (constant_prices_never_signal _ _ 2 4 (Qc_of_Z 10));
    [reflexivity..|lia|lia].
Defined.

End CrossoverFacts.

(* ===================================================================== *)
(** * Moving averages over series with missing values *)
(* ===================================================================== *)

Section MovingAverages.

Import TechnicalIndicators Notions.

#[local] Open Scope Qc_scope.

Lemma length_omap_observation (l : Series) :
  length (omap observation l) = length l ↔ Forall (λ x, is_number x = true) l.
Proof.
  induction l as [|x l IH]; [by split|].
  pose proof (length_omap_le observation l) as Hle.
  cbn [omap list_omap]. fold (omap observation l).
  destruct x as [q| | |]; cbn [observation length is_number]; split.
  - intros [= H]. constructor; [done|]. by apply IH.
  - intros [_ H]%list.Forall_cons. f_equal. by apply IH.
  - lia.
  - by intros [[=] _]%list.Forall_cons.
  - lia.
  - by intros [[=] _]%list.Forall_cons.
  - lia.
  - by intros [[=] _]%list.Forall_cons.
Qed.

Lemma omap_observation_numbers (l : Series) :
  Forall (λ x, is_number x = true) l → Fin <$> omap observation l = l.
Proof.
  induction 1 as [|x l Hx _ IH]; [done|].
  destruct x as [q| | |]; try done. cbn. f_equal. apply IH.
Qed.

(** X11. Where a simple moving average is missing, over any series and
    for a window [1 <= W < 2^63]: the result is as long as the input;
    the entry at [i] is missing whenever the window is not complete
    ([i < W-1]) or one of the [W] entries under it is not a number (a
    missing value or an infinity blanks the average of every window it
    falls under); and it is a number when the window is complete and
    holds numbers only, on a series without numbers beyond [2^900]. *)
Theorem sma_missing_entries (prices : Series) (W : Z) (i : nat) :
  (1 ≤ W < 2 ^ 63)%Z →
  (i < length prices)%nat →
  let under := take (Z.to_nat W) (drop (S i - Z.to_nat W) prices) in
  let complete :=
    (Z.to_nat W ≤ S i)%nat ∧ Forall (λ x, is_number x = true) under in
  ∃ out : Series,
    sma prices (VInt W) = Ok out ∧
    length out = length prices ∧
    (¬ complete → out !! i = Some NaN) ∧
    (complete → moderate prices → ∃ q, out !! i = Some (Fin q)).
Proof.
  intros HW Hi under complete. eexists. split; [apply sma_ok; lia|].
  split; [by rewrite length_mean|].
  unfold roll_mean. cbn [obj]. rewrite list_lookup_fmap, lookup_seq_lt by done.
  cbn [fmap option_fmap option_map]. unfold mean_at. rewrite omap_observation_prep.
  unfold window_at. cbn [obj window min_periods]. change (0 + i)%nat with i.
  subst under complete. generalize (Z.to_nat W) (Z2Nat.inj_le 1 W ltac:(lia) ltac:(lia)).
  intros w Hw. assert (1 ≤ w)%nat as Hw1 by lia. clear Hw.
  remember (take (S i - (S i - w)) (drop (S i - w) prices)) as win eqn:Ewin.
  assert (length win = Nat.min w (S i)) as Hwin.
  { rewrite Ewin, length_take, length_drop. lia. }
  assert ((w ≤ S i)%nat → win = take w (drop (S i - w) prices)) as Hunder.
  { intros Hc. rewrite Ewin. f_equal. lia. }
  pose proof (length_omap_le observation win) as Hle.
  split.
  - intros Hnot.
    destruct (Nat.leb_spec w (length (omap observation win))) as [Hge|]; [|done].
    exfalso. apply Hnot. assert (w ≤ S i)%nat as Hc by lia.
    split; [done|]. rewrite <- (Hunder Hc). apply length_omap_observation. lia.
  - intros [Hc Hall] _. rewrite <- (Hunder Hc) in *.
    apply length_omap_observation in Hall as Hlen. rewrite Hlen, Hwin.
    replace (Nat.min w (S i)) with w by lia.
    rewrite Nat.leb_refl. destruct (Nat.ltb_spec 0 w); [eauto|lia].
Qed.

Lemma sma_missing_entries_witness :
  ∃ out : Series,
    sma [of_Z 1; PInf; of_Z 3; of_Z 5] (VInt 2) = Ok out ∧
    out !! 2%nat = Some NaN.
Proof.
  destruct (sma_missing_entries [of_Z 1; PInf; of_Z 3; of_Z 5] 2 2)
    as (out & E & _ & H2 & _); [lia|cbn; lia|].
  exists out. split; [done|].
  apply H2. intros [_ Hall]. by apply Forall_cons_1 in Hall as [[=] _].
Defined.

Lemma mean_pointwise (r : Rolling) (target : Series) :
  length target = length (obj r) →
  (∀ i x, obj r !! i = Some x → target !! i = Some (mean_at r i)) →
  roll_mean r = target.
Proof.
  intros Hlen Hpt. apply list_eq. intros i. unfold roll_mean.
  rewrite list_lookup_fmap.
  destruct (decide (i < length (obj r))%nat) as [Hi|Hi].
  - rewrite lookup_seq_lt by done. cbn.
    destruct (lookup_lt_is_Some_2 (obj r) i Hi) as [x Hx].
    by rewrite (Hpt i x Hx).
  - rewrite lookup_seq_ge by lia. cbn. symmetry. apply lookup_ge_None. lia.
Qed.

(** X12. The degenerate windows of the simple moving average: a negative
    window, or no window, raises the [ValueError] of [rolling]; window 0
    gives a series of missing values; window 1 gives the series back,
    with its infinities turned into missing values. *)
Theorem sma_degenerate_windows (prices : Series) :
  (∀ W : Z, (W < 0)%Z →
     sma prices (VInt W)
     = Raise (ValueError "window must be an integer 0 or greater")) ∧
  sma prices VNone = Raise (ValueError "window must be an integer 0 or greater") ∧
  sma prices (VInt 0) = Ok (replicate (length prices) NaN) ∧
  sma prices (VInt 1) = Ok (prep_values prices).
Proof.
  split; [|split; [done|split]].
  - intros W HW. unfold sma, rolling. by destruct (Z.ltb_spec W 0); [|lia].
  - rewrite sma_ok by lia. f_equal. apply mean_pointwise.
    + by rewrite length_replicate.
    + intros i x Hx. rewrite lookup_replicate_2 by (by eapply lookup_lt_Some).
      unfold mean_at, window_at. cbn [obj window min_periods Z.to_nat].
      by rewrite Nat.sub_diag.
  - rewrite sma_ok by lia. f_equal. apply mean_pointwise.
    + unfold prep_values. by rewrite length_fmap.
    + intros i x Hx. cbn [obj] in Hx. unfold prep_values at 1.
      rewrite list_lookup_fmap, Hx. cbn [fmap option_fmap option_map]. f_equal.
      unfold mean_at, window_at. cbn [obj window min_periods].
      change (Z.to_nat 1) with 1%nat.
      replace (S i - (S i - 1))%nat with 1%nat by lia.
      replace (S i - 1)%nat with i by lia.
      rewrite (drop_S _ _ _ Hx). cbn [take].
      destruct x as [q| | |]; try done.
      change (Fin q = Fin (Qc_sum [q] / Qc_of_Z 1)). f_equal.
      rewrite Qc_sum_cons, Qc_of_Z_1. change (Qc_sum []) with 0%Qc. by field.
Qed.

End MovingAverages.

(* ===================================================================== *)
(** * Exponential averages over any series, and MACD *)
(* ===================================================================== *)

Section ExponentialAverages.

Import TechnicalIndicators Notions.

#[local] Open Scope Qc_scope.

Lemma ewm_ok (s : Series) (sp : Z) :
  (1 ≤ sp)%Z →
  ewm s (VInt sp) =
    Ok {| ewm_obj := s; com := (Qc_of_Z sp - 1) / 2; ewm_min_periods := 0;
          adjust := true; ignore_na := false |}.
Proof. intros H. unfold ewm. by destruct (Z.ltb_spec sp 1); [lia|]. Qed.

Lemma length_ewm_loop (e : ExponentialMovingWindow) (minp : nat)
    (st : ewm_state) (vals : Series) :
  length (ewm_loop e minp st vals) = length vals.
Proof.
  revert st. induction vals as [|cur vals IH]; intros st; [done|].
  cbn. by rewrite IH.
Qed.

Lemma length_ewm_mean (e : ExponentialMovingWindow) :
  length (ewm_mean e) = length (ewm_obj e).
Proof.
  unfold ewm_mean, prep_values. destruct (ewm_obj e) as [|x0 rest]; [done|].
  cbn. by rewrite length_ewm_loop, length_fmap.
Qed.

(** One iteration keeps the invariant, and the average is a number
    afterwards exactly if it was one or the entry is one. *)
Lemma ewm_step_invariant (P : Qc → Prop) (e : ExponentialMovingWindow)
    (st : ewm_state) (cur : float) :
  adjust e = true → ignore_na e = false →
  0 ≤ 1 - 1 / (1 + com e) →
  (∀ W w c, 0 ≤ W → P w → P c → P ((W * w + c) / (W + 1))) →
  ewm_invariant P st →
  (cur = NaN ∨ ∃ q, cur = Fin q ∧ P q) →
  ewm_invariant P (ewm_step e st cur) ∧
  is_number (weighted (ewm_step e st cur))
  = is_number (weighted st) || is_number cur.
Proof.
  intros Ha Hi Hb HP [HW Hst] Hcur. unfold ewm_step. rewrite Ha, Hi.
  destruct st as [w W n]. cbn [weighted old_wt nobs] in *.
  assert (0 ≤ W * (1 - 1 / (1 + com e))) as HW' by by apply Qcmult_nonneg.
  destruct w as [q| | |]; try done; destruct Hcur as [-> | (c & -> & Hc)];
    cbn [isnan negb orb andb is_number].
  - split; [|done]. split; [done|]. cbn [weighted nobs]. split; [tauto|lia].
  - destruct Hst as [Hq Hn].
    assert (W * (1 - 1 / (1 + com e)) + 1 ≠ 0) as Hnz.
    { apply Qc_ge_1_nonzero. rewrite Qcplus_comm. by apply Qcplus_one_nonneg. }
    assert (1 ≤ W * (1 - 1 / (1 + com e)) + 1) as Hge.
    { rewrite Qcplus_comm. by apply Qcplus_one_nonneg. }
    destruct (Float.neqb (Fin q) (Fin c)).
    + cbn [Float.mul Float.add]. rewrite div_Fin by done.
      split; [|done]. split; cbn [weighted old_wt nobs].
      * eapply Qcle_trans; [|exact Hge]. done.
      * split; [|lia]. rewrite (Qcmult_1_l c). by apply HP.
    + split; [|done]. split; cbn [weighted old_wt nobs].
      * eapply Qcle_trans; [|exact Hge]. done.
      * split; [done|lia].
  - split; [|done]. split; [done|]. cbn [weighted nobs]. lia.
  - split; [|done]. split; [done|]. cbn [weighted nobs]. split; [done|lia].
Qed.

Lemma ewm_output_invariant (P : Qc → Prop) (st : ewm_state) :
  ewm_invariant P st → ewm_output 1 st = weighted st.
Proof.
  intros [_ H]. unfold ewm_output. destruct (weighted st) as [q| | |]; try done.
  - destruct H as [_ H]. by destruct (Nat.leb_spec 1 (nobs st)); [|lia].
  - by destruct (_ <=? _)%nat.
Qed.

Lemma ewm_loop_invariant (P : Qc → Prop) (e : ExponentialMovingWindow)
    (vals : Series) (st : ewm_state) (i : nat) (y : float) :
  adjust e = true → ignore_na e = false →
  0 ≤ 1 - 1 / (1 + com e) →
  (∀ W w c, 0 ≤ W → P w → P c → P ((W * w + c) / (W + 1))) →
  ewm_invariant P st →
  Forall (λ x, x = NaN ∨ ∃ q, x = Fin q ∧ P q) vals →
  ewm_loop e 1 st vals !! i = Some y →
  if is_number (weighted st) || number_seen vals i
  then ∃ q, y = Fin q ∧ P q
  else y = NaN.
Proof.
  intros Ha Hi Hb HP Hst Hvals. revert st i Hst.
  induction Hvals as [|cur vals Hcur _ IH]; intros st i Hst; [done|].
  destruct (ewm_step_invariant P e st cur Ha Hi Hb HP Hst Hcur) as [Hst' Hnum].
  cbn [ewm_loop]. destruct i as [|i].
  - cbn [lookup list_lookup]. intros [= <-].
    rewrite (ewm_output_invariant P _ Hst').
    unfold number_seen. cbn [take existsb]. rewrite orb_false_r, <- Hnum.
    destruct Hst' as [_ H'].
    destruct (weighted (ewm_step e st cur)) as [q| | |]; try done.
    exists q. tauto.
  - change ((?a :: ?l) !! S i) with (l !! i). intros Hy.
    specialize (IH _ _ Hst' Hy). rewrite Hnum in IH.
    unfold number_seen in *. cbn [take existsb].
    by rewrite orb_assoc.
Qed.

Lemma prep_values_cases (P : Qc → Prop) (s : Series) :
  Forall (λ x, ∀ q, x = Fin q → P q) s →
  Forall (λ x, x = NaN ∨ ∃ q, x = Fin q ∧ P q) (prep_values s).
Proof.
  intros H. unfold prep_values. apply Forall_fmap.
  eapply list.Forall_impl; [exact H|]. intros [q| | |] Hx; cbn; eauto.
Qed.

Lemma number_seen_prep (s : Series) (i : nat) :
  number_seen (prep_values s) i = number_seen s i.
Proof.
  unfold number_seen, prep_values. rewrite <- fmap_take.
  induction (take (S i) s) as [|x l IH]; [done|].
  cbn. rewrite IH. by destruct x.
Qed.

(** The mean of an exponentially weighted window the way [ema] builds
    it: missing before the first number, a number with [P] from there on. *)
Lemma ewm_mean_invariant (P : Qc → Prop) (e : ExponentialMovingWindow)
    (i : nat) (y : float) :
  adjust e = true → ignore_na e = false → ewm_min_periods e = 0%nat →
  0 ≤ 1 - 1 / (1 + com e) →
  (∀ W w c, 0 ≤ W → P w → P c → P ((W * w + c) / (W + 1))) →
  Forall (λ x, ∀ q, x = Fin q → P q) (ewm_obj e) →
  ewm_mean e !! i = Some y →
  if number_seen (ewm_obj e) i then ∃ q, y = Fin q ∧ P q else y = NaN.
Proof.
  intros Ha Hi Hm Hb HP Hobj. rewrite <- number_seen_prep.
  apply prep_values_cases in Hobj. unfold ewm_mean. rewrite Hm.
  change (Nat.max 0 1) with 1%nat.
  destruct (prep_values (ewm_obj e)) as [|x0 rest]; [done|].
  apply list.Forall_cons in Hobj as [Hx0 Hrest].
  assert (ewm_invariant P
            {| weighted := x0; old_wt := 1;
               nobs := if isnan x0 then 0%nat else 1%nat |}) as Hst.
  { split; [done|]. cbn [weighted nobs].
    by destruct Hx0 as [-> | (q & -> & Hq)]. }
  destruct i as [|i].
  - cbn [lookup list_lookup]. intros [= <-].
    rewrite (ewm_output_invariant P _ Hst). cbn [weighted].
    unfold number_seen. cbn [take existsb]. rewrite orb_false_r.
    destruct Hx0 as [-> | (q & -> & Hq)]; cbn [is_number]; eauto.
  - change ((?a :: ?l) !! S i) with (l !! i). intros Hy.
    pose proof (ewm_loop_invariant P e rest _ i y Ha Hi Hb HP Hst Hrest Hy) as H.
    cbn [weighted] in H. unfold number_seen in *. by cbn [take existsb].
Qed.

Lemma ema_ok (prices : Series) (span : Z) :
  (1 ≤ span)%Z →
  ∃ e, ema prices (VInt span) = Ok (ewm_mean e) ∧
       ewm_obj e = prices ∧ adjust e = true ∧ ignore_na e = false ∧
       ewm_min_periods e = 0%nat ∧ 0 ≤ 1 - 1 / (1 + com e).
Proof.
  intros HS. eexists. unfold ema. rewrite ewm_ok by done.
  split; [reflexivity|]. repeat split. cbn [com].
  by apply decay_nonneg, com_nonneg.
Qed.

Lemma existsb_not_number (l : Series) :
  Forall (λ y, is_number y = false) l → existsb is_number l = false.
Proof. induction 1 as [|y l Hy _ IH]; [done|]. cbn. by rewrite Hy, IH. Qed.

Lemma number_not_seen (s : Series) (i j : nat) :
  Forall (λ y, is_number y = false) (take i s) → (j < i)%nat →
  number_seen s j = false.
Proof.
  intros H Hj. unfold number_seen. apply existsb_not_number.
  replace (take (S j) s) with (take (S j) (take i s))
    by (rewrite take_take; f_equal; lia).
  by apply Forall_take.
Qed.

(** Up to the first number the pass keeps a missing average; the first
    number becomes the average as it is. *)
Lemma ewm_loop_first (e : ExponentialMovingWindow) (i : nat) (vals : Series)
    (st : ewm_state) (x : Qc) :
  weighted st = NaN → nobs st = 0%nat →
  Forall (λ y, y = NaN) (take i vals) →
  vals !! i = Some (Fin x) →
  ewm_loop e 1 st vals !! i = Some (Fin x).
Proof.
  revert vals st. induction i as [|i IH]; intros [|cur vals] st Hw Hn Hpre Hx;
    try done; cbn [ewm_loop]; unfold ewm_step; rewrite Hw;
    cbn [isnan negb].
  - injection Hx as ->. cbn [isnan negb lookup list_lookup].
    unfold ewm_output. cbn [nobs weighted]. by rewrite Hn.
  - change ((?a :: ?l) !! S i) with (l !! i).
    change (take (S i) (cur :: vals)) with (cur :: take i vals) in Hpre.
    apply list.Forall_cons in Hpre as [-> Hpre].
    cbn [isnan negb]. apply IH; [done|cbn [nobs]; lia|done|done].
Qed.

Lemma prep_values_not_number (l : Series) :
  Forall (λ y, is_number y = false) l → Forall (λ y, y = NaN) (prep_values l).
Proof.
  intros H. unfold prep_values. apply Forall_fmap.
  eapply list.Forall_impl; [exact H|]. by intros [q| | |].
Qed.

Lemma ewm_mean_first (e : ExponentialMovingWindow) (i : nat) (x : Qc) :
  ewm_min_periods e = 0%nat →
  Forall (λ y, is_number y = false) (take i (ewm_obj e)) →
  ewm_obj e !! i = Some (Fin x) →
  ewm_mean e !! i = Some (Fin x).
Proof.
  intros Hm Hpre Hx. unfold ewm_mean. rewrite Hm. change (Nat.max 0 1) with 1%nat.
  destruct (ewm_obj e) as [|x0 rest]; [done|].
  unfold prep_values. rewrite fmap_cons. fold (prep_values rest).
  destruct i as [|i].
  - injection Hx as ->. done.
  - change (take (S i) (x0 :: rest)) with (x0 :: take i rest) in Hpre.
    apply list.Forall_cons in Hpre as [Hx0 Hpre].
    change ((?a :: ?l) !! S i) with (l !! i) in *.
    assert ((if isinf x0 then NaN else x0) = NaN) as -> by (by destruct x0).
    apply ewm_loop_first; [done|done| |].
    + unfold prep_values. rewrite <- fmap_take.
      by apply prep_values_not_number.
    + unfold prep_values. by rewrite list_lookup_fmap, Hx.
Qed.

(** X13. An exponential moving average has no warm-up, over any series
    and for a span [1 <= span < 2^63]: the result is as long as the input,
    it is missing at every position up to which the input holds no
    number, and at the position of the first number of the input it is
    that number itself; from there on it is a number at every position,
    also where the input is missing or infinite, on a series without
    numbers beyond [2^900]. *)
Theorem ema_missing_values (prices : Series) (span : Z) (i : nat) :
  (1 ≤ span < 2 ^ 63)%Z →
  (i < length prices)%nat →
  ∃ out : Series,
    ema prices (VInt span) = Ok out ∧
    length out = length prices ∧
    (number_seen prices i = false → out !! i = Some NaN) ∧
    (∀ x, prices !! i = Some (Fin x) →
          Forall (λ y, is_number y = false) (take i prices) →
          out !! i = Some (Fin x)) ∧
    (number_seen prices i = true → moderate prices →
       ∃ q, out !! i = Some (Fin q)).
Proof.
  intros [HS _] Hlt.
  destruct (ema_ok prices span HS) as (e & He & Hobj & Ha & Hi & Hm & Hb).
  exists (ewm_mean e). split; [done|].
  pose proof (length_ewm_mean e) as Hlen. rewrite Hobj in Hlen.
  split; [done|].
  destruct (lookup_lt_is_Some_2 (ewm_mean e) i) as [y Hy]; [lia|].
  pose proof (ewm_mean_invariant (λ _, True) e i y Ha Hi Hm Hb) as H.
  rewrite Hobj in H. specialize (H ltac:(done)).
  specialize (H ltac:(by apply list.Forall_forall)). specialize (H Hy).
  split; [|split].
  - intros E. rewrite E in H. by rewrite Hy, H.
  - intros x Hx Hpre. apply ewm_mean_first; [done|by rewrite Hobj..].
  - intros E _. rewrite E in H. destruct H as (q & -> & _). eauto.
Qed.

Lemma ema_missing_values_witness :
  ∃ out : Series,
    ema [NaN; PInf; of_Z 4; of_Z 6] (VInt 3) = Ok out ∧
    out !! 1%nat = Some NaN ∧ out !! 2%nat = Some (of_Z 4).
Proof.
  destruct (ema_missing_values [NaN; PInf; of_Z 4; of_Z 6] 3 1)
    as (out & E & _ & H1 & _); [lia|cbn; lia|].
  destruct (ema_missing_values [NaN; PInf; of_Z 4; of_Z 6] 3 2)
    as (out' & E' & _ & _ & H2 & _); [lia|cbn; lia|].
  rewrite E in E'. injection E' as <-.
  exists out. split; [exact E|]. split; [by apply H1|].
  apply H2; [done|]. by repeat constructor.
Defined.

Lemma ewm_valid (s : Series) (v : value) :
  valid_span v →
  ∃ e, ewm s v = Ok e ∧
       ewm_obj e = s ∧ adjust e = true ∧ ignore_na e = false ∧
       ewm_min_periods e = 0%nat ∧ 0 ≤ 1 - 1 / (1 + com e).
Proof.
  destruct v as [|sp]; [done|]. intros HS. eexists.
  rewrite ewm_ok by done. split; [reflexivity|]. repeat split. cbn [com].
  by apply decay_nonneg, com_nonneg.
Qed.



Lemma length_zip_with_same {A B C} (f : A → B → C) (a : list A) (b : list B) :
  length a = length b → length (zip_with f a b) = length a.
Proof. intros H. rewrite length_zip_with. lia. Qed.


Lemma number_seen_S (s : Series) (i : nat) :
  number_seen s (S i) = number_seen s i || from_option is_number false (s !! S i).
Proof.
  unfold number_seen. generalize (S i). clear i. intros n.
  revert n. induction s as [|x s IH]; intros n; [by destruct n|].
  destruct n as [|n].
  - cbn. by rewrite orb_false_r.
  - change (take (S (S n)) (x :: s)) with (x :: take (S n) s).
    change (take (S n) (x :: s)) with (x :: take n s).
    cbn [existsb]. change ((x :: s) !! S n) with (s !! n).
    by rewrite IH, orb_assoc.
Qed.

Lemma number_seen_0 (s : Series) :
  number_seen s 0 = from_option is_number false (s !! 0%nat).
Proof. destruct s as [|x s]; [done|]. cbn. by rewrite orb_false_r. Qed.

(** A series whose entries are numbers exactly where a number was seen
    in [p] has seen a number exactly where [p] has. *)
Lemma number_seen_ext (p m : Series) (i : nat) :
  length m = length p →
  (∀ j y, m !! j = Some y → is_number y = number_seen p j) →
  number_seen m i = number_seen p i.
Proof.
  intros Hlen H. induction i as [|i IH].
  - rewrite number_seen_0. destruct (m !! 0%nat) as [y|] eqn:E.
    + by apply H.
    + destruct m; [|done]. by destruct p.
  - rewrite number_seen_S, IH. destruct (m !! S i) as [y|] eqn:E.
    + cbn. rewrite (H _ _ E), number_seen_S. by destruct (number_seen p i).
    + rewrite number_seen_S.
      apply lookup_ge_None in E. rewrite Hlen in E.
      apply lookup_ge_None in E. by rewrite E.
Qed.

Lemma ewm_mean_shape (e : ExponentialMovingWindow) (i : nat) (y : float) :
  adjust e = true → ignore_na e = false → ewm_min_periods e = 0%nat →
  0 ≤ 1 - 1 / (1 + com e) →
  ewm_mean e !! i = Some y →
  if number_seen (ewm_obj e) i then ∃ q, y = Fin q else y = NaN.
Proof.
  intros Ha Hi Hm Hb Hy.
  pose proof (ewm_mean_invariant (λ _, True) e i y Ha Hi Hm Hb) as H.
  specialize (H ltac:(done)). specialize (H ltac:(by apply list.Forall_forall)).
  specialize (H Hy). destruct (number_seen _ _); [|done].
  destruct H as (q & -> & _). eauto.
Qed.

Lemma ewm_mean_head (e : ExponentialMovingWindow) (x0 : Qc) :
  ewm_min_periods e = 0%nat →
  ewm_obj e !! 0%nat = Some (Fin x0) →
  ewm_mean e !! 0%nat = Some (Fin x0).
Proof.
  intros Hm. unfold ewm_mean. rewrite Hm.
  destruct (ewm_obj e) as [|x rest]; [done|]. by intros [= ->].
Qed.

(** X16. MACD has no warm-up, over any series and for spans from 1 to
    below [2^63]: the three lines are missing at every position up to which the
    prices hold no number, and at the position of the first number of
    the prices all three lines are zero; from there on the three lines
    are numbers at every position, on prices without numbers beyond
    [2^900]. *)
Theorem macd_missing_values (prices : Series) (fast slow signal : Z) (i : nat) :
  (1 ≤ fast < 2 ^ 63)%Z → (1 ≤ slow < 2 ^ 63)%Z → (1 ≤ signal < 2 ^ 63)%Z →
  (i < length prices)%nat →
  ∃ m s h : Series,
    macd prices (VInt fast) (VInt slow) (VInt signal)
      = Ok {[ "macd" := m; "signal" := s; "histogram" := h ]} ∧
    (number_seen prices i = false →
       m !! i = Some NaN ∧ s !! i = Some NaN ∧ h !! i = Some NaN) ∧
    (∀ x, prices !! i = Some (Fin x) →
          Forall (λ y, is_number y = false) (take i prices) →
          m !! i = Some (Fin 0) ∧ s !! i = Some (Fin 0) ∧
          h !! i = Some (Fin 0)) ∧
    (number_seen prices i = true → moderate prices →
       ∃ qm qs qh, m !! i = Some (Fin qm) ∧ s !! i = Some (Fin qs) ∧
                   h !! i = Some (Fin qh)).
Proof.
  intros [Hf _] [Hs _] [Hg _] Hlt. unfold macd.
  destruct (ewm_valid prices (VInt fast) Hf) as (ef & -> & Hof & Haf & Hif & Hmf & Hbf).
  destruct (ewm_valid prices (VInt slow) Hs) as (es & -> & Hos & Has & His & Hms & Hbs).
  cbn [mbind result_bind].
  set (m := zip_with Float.sub (ewm_mean ef) (ewm_mean es)).
  destruct (ewm_valid m (VInt signal) Hg) as (eg & -> & Hog & Hag & Hig & Hmg & Hbg).
  cbn [mbind result_bind mret result_ret].
  exists m, (ewm_mean eg), (zip_with Float.sub m (ewm_mean eg)).
  split; [done|].
  assert (length (ewm_mean ef) = length prices) as Hlf
    by (rewrite length_ewm_mean; congruence).
  assert (length (ewm_mean es) = length prices) as Hls
    by (rewrite length_ewm_mean; congruence).
  assert (length m = length prices) as Hlm.
  { unfold m. rewrite length_zip_with_same; congruence. }
  assert (∀ j y, m !! j = Some y →
            if number_seen prices j then ∃ q, y = Fin q else y = NaN) as Hm.
  { intros j y. unfold m. rewrite lookup_zip_with.
    destruct (ewm_mean ef !! j) as [a|] eqn:Ea; [|done].
    destruct (ewm_mean es !! j) as [b|] eqn:Eb; [|done].
    cbn [mbind option_bind]. intros [= <-].
    pose proof (ewm_mean_shape ef j a Haf Hif Hmf Hbf Ea) as HA.
    pose proof (ewm_mean_shape es j b Has His Hms Hbs Eb) as HB.
    rewrite Hof in HA. rewrite Hos in HB.
    destruct (number_seen prices j).
    - destruct HA as [qa ->], HB as [qb ->]. cbn. eauto.
    - by rewrite HA, HB. }
  assert (∀ j, number_seen m j = number_seen prices j) as Hseen.
  { intros j. apply number_seen_ext; [done|]. intros k y Hy.
    specialize (Hm k y Hy). destruct (number_seen prices k).
    - by destruct Hm as [q ->].
    - by rewrite Hm. }
  destruct (lookup_lt_is_Some_2 m i) as [ym Hym]; [lia|].
  destruct (lookup_lt_is_Some_2 (ewm_mean eg) i) as [ys Hys].
  { rewrite length_ewm_mean, Hog. lia. }
  split; [|split].
  - intros E. specialize (Hm i ym Hym). rewrite E in Hm. subst ym.
    pose proof (ewm_mean_shape eg i ys Hag Hig Hmg Hbg Hys) as H.
    rewrite Hog, Hseen, E in H. subst ys.
    split; [done|]. split; [done|].
    by rewrite lookup_zip_with, Hym, Hys.
  - intros x Hx Hpre.
    assert (m !! i = Some (Fin 0)) as Hm0.
    { unfold m. rewrite lookup_zip_with.
      rewrite (ewm_mean_first ef i x), (ewm_mean_first es i x)
        by (done || by rewrite ?Hof, ?Hos).
      cbn. do 2 f_equal; ring. }
    assert (ewm_mean eg !! i = Some (Fin 0)) as Hs0.
    { apply ewm_mean_first; [done| |by rewrite Hog].
      rewrite Hog. apply Forall_lookup_2. intros j y Hj.
      apply lookup_take_Some in Hj as [Hj Hlt'].
      specialize (Hm j y Hj).
      rewrite (number_not_seen prices i j Hpre Hlt') in Hm. by subst y. }
    split; [done|]. split; [done|].
    rewrite lookup_zip_with, Hm0, Hs0. cbn. do 2 f_equal; ring.
  - intros E _. specialize (Hm i ym Hym). rewrite E in Hm.
    destruct Hm as [qm ->].
    pose proof (ewm_mean_shape eg i ys Hag Hig Hmg Hbg Hys) as H.
    rewrite Hog, Hseen, E in H. destruct H as [qs ->].
    exists qm, qs, (qm - qs). split; [done|]. split; [done|].
    by rewrite lookup_zip_with, Hym, Hys.
Qed.

Lemma macd_missing_values_witness :
  ∃ m s h : Series,
    macd [NaN; of_Z 4; NaN; of_Z 6] (VInt 2) (VInt 3) (VInt 2)
      = Ok {[ "macd" := m; "signal" := s; "histogram" := h ]} ∧
    m !! 1%nat = Some (Fin 0) ∧ s !! 1%nat = Some (Fin 0) ∧
    h !! 1%nat = Some (Fin 0).
Proof.
  destruct (macd_missing_values [NaN; of_Z 4; NaN; of_Z 6] 2 3 2 1)
    as (m & s & h & E & _ & H1 & _); [lia|lia|lia|cbn; lia|].
  exists m, s, h. split; [exact E|].
  apply (H1 (Qc_of_Z 4)); [done|]. by repeat constructor.
Defined.





End ExponentialAverages.

(* ===================================================================== *)
(** * The range of the relative strength index *)
(* ===================================================================== *)

Section Oscillator.

Import TechnicalIndicators Notions Reference.

#[local] Open Scope Qc_scope.

Lemma Qcopp_nonneg (a : Qc) : a ≤ 0 → 0 ≤ - a.
Proof.
  intros H. apply Qcopp_le_compat in H.
  by replace (- 0) with 0 in H by ring.
Qed.




Lemma mean_warm_up (s : Series) (w i : nat) :
  (S i < w)%nat →
  mean_at {| obj := s; window := w; min_periods := w |} i = NaN.
Proof.
  intros Hw. unfold mean_at. cbn [min_periods].
  pose proof (window_at_partial (prep_values s) w i Hw) as H.
  assert (window_at {| obj := prep_values s; window := w; min_periods := w |} i
          = prep_values (window_at {| obj := s; window := w; min_periods := w |} i))
    as E.
  { unfold window_at, prep_values. cbn [obj window]. by rewrite fmap_take, fmap_drop. }
  rewrite E in H.
  by destruct (Nat.leb_spec w
                 (length (omap observation
                    (prep_values
                       (window_at {| obj := s; window := w; min_periods := w |} i)))));
    [lia|].
Qed.



End Oscillator.

(* ===================================================================== *)
(** * Returns over series with gaps *)
(* ===================================================================== *)

Section ReturnsFacts.

Import ReturnCalculator Notions Reference.

#[local] Open Scope Qc_scope.

Lemma length_ffill_from (last : float) (s : Series) :
  length (ffill_from last s) = length s.
Proof.
  revert last. induction s as [|x s IH]; intros last; [done|].
  cbn. by rewrite IH.
Qed.

(** Forward filling keeps every entry that is not missing. *)
Lemma ffill_from_lookup_value (last : float) (s : Series) (i : nat) (x : float) :
  s !! i = Some x → isnan x = false → ffill_from last s !! i = Some x.
Proof.
  revert last i. induction s as [|y s IH]; intros last i; [done|].
  destruct i as [|i]; cbn.
  - intros [= ->] ->. done.
  - apply IH.
Qed.

(** A missing entry takes the filled entry before it. *)
Lemma ffill_from_lookup_missing (last : float) (s : Series) (i : nat) :
  s !! S i = Some NaN → ffill_from last s !! S i = ffill_from last s !! i.
Proof.
  revert last i. induction s as [|y s IH]; intros last i; [done|].
  change ((y :: s) !! S i) with (s !! i). cbn [ffill_from].
  change ((?a :: ?l) !! S i) with (l !! i).
  destruct i as [|i].
  - destruct s as [|z s]; [done|]. by intros [= ->].
  - apply IH.
Qed.

Lemma pct_change_lookup_S (s : Series) (i : nat) (a b : float) :
  ffill s !! i = Some a → ffill s !! S i = Some b →
  pct_change s !! S i = Some (b / a - of_Z 1)%float.
Proof.
  intros Ha Hb. unfold pct_change, shift.
  rewrite list_lookup_fmap, lookup_zip_with, Hb. cbn [mbind option_bind].
  rewrite lookup_take_lt by (by apply lookup_lt_Some in Hb).
  change ((NaN :: ?l) !! S i) with (l !! i). by rewrite Ha.
Qed.

(** X20. Simple returns over any series: the result is as long as the
    input and its first entry is missing. A price that is missing right
    after a number [a] other than zero counts as unchanged: its return
    is exactly 0. After a price of zero, a price other than zero gives
    an infinite return, not an error. *)
Theorem simple_returns_cases (prices : Series) (i : nat) :
  length (simple_returns prices) = length prices ∧
  (prices ≠ [] → simple_returns prices !! 0%nat = Some NaN) ∧
  (∀ a, prices !! i = Some (Fin a) → prices !! S i = Some NaN → a ≠ 0 →
     simple_returns prices !! S i = Some (Fin 0)) ∧
  (∀ b, prices !! i = Some (Fin 0) → prices !! S i = Some (Fin b) → b ≠ 0 →
     ∃ y, simple_returns prices !! S i = Some y ∧ isinf y = true).
Proof.
  unfold simple_returns. split; [|split; [|split]].
  - unfold pct_change, shift, ffill.
    rewrite length_fmap, length_zip_with, length_take, !length_ffill_from.
    cbn [length]. rewrite length_ffill_from. lia.
  - destruct prices as [|x prices]; [done|]. intros _.
    unfold pct_change, shift, ffill. cbn. by destruct x.
  - intros a Ha Hb Hnz.
    pose proof (ffill_from_lookup_value NaN prices i (Fin a) Ha eq_refl) as Hfa.
    rewrite (pct_change_lookup_S prices i (Fin a) (Fin a)); [|done|].
    + rewrite div_Fin by done. unfold of_Z. rewrite Qc_of_Z_1. cbn.
      do 2 f_equal. by field.
    + unfold ffill. by rewrite ffill_from_lookup_missing.
  - intros b Ha Hb Hb0.
    rewrite (pct_change_lookup_S prices i (Fin 0) (Fin b));
      [|by apply ffill_from_lookup_value..].
    eexists. split; [reflexivity|]. cbn [Float.div].
    rewrite (bool_decide_eq_true_2 (0 = 0)), (bool_decide_eq_false_2 (b = 0))
      by done.
    by destruct (bool_decide (0 < b)).
Qed.





End ReturnsFacts.

(* ===================================================================== *)
(** * Cleaning a frame *)
(* ===================================================================== *)

Section Cleaning.

Import DataProcessor Notions.

Lemma take_rows_lookup {A} (keep : list nat) (l : list A) (i k : nat) :
  Forall (λ k, (k < length l)%nat) keep →
  keep !! i = Some k →
  take_rows keep l !! i = l !! k.
Proof.
  intros Hkeep. revert i. unfold take_rows.
  induction Hkeep as [|k0 keep Hk0 _ IH]; intros i; [done|].
  destruct (lookup_lt_is_Some_2 l k0 Hk0) as [x Hx].
  cbn [omap list_omap]. rewrite Hx. destruct i as [|i].
  - by intros [= <-].
  - apply IH.
Qed.

Lemma length_take_rows {A} (keep : list nat) (l : list A) :
  Forall (λ k, (k < length l)%nat) keep →
  length (take_rows keep l) = length keep.
Proof.
  unfold take_rows. induction 1 as [|k0 keep Hk0 _ IH]; [done|].
  destruct (lookup_lt_is_Some_2 l k0 Hk0) as [x Hx].
  cbn [omap list_omap]. rewrite Hx. cbn. by rewrite IH.
Qed.

Lemma seq_below (n : nat) : Forall (λ k, (k < n)%nat) (seq 0 n).
Proof. apply Forall_seq. lia. Qed.

Lemma take_rows_seq {A} (l : list A) : take_rows (seq 0 (length l)) l = l.
Proof.
  apply list_eq. intros i.
  destruct (decide (i < length l)%nat) as [Hi|Hi].
  - rewrite (take_rows_lookup _ _ i i); [done|apply seq_below|].
    by rewrite lookup_seq_lt.
  - rewrite (proj2 (lookup_ge_None l i)) by lia.
    apply lookup_ge_None. rewrite length_take_rows, length_seq; [lia|].
    apply seq_below.
Qed.

Lemma omap_sublist {A B} (f : A → option B) (l1 l2 : list A) :
  l1 `sublist_of` l2 → omap f l1 `sublist_of` omap f l2.
Proof.
  induction 1 as [|x l1 l2 _ IH|x l1 l2 _ IH]; [done| |]; cbn;
    destruct (f x); try done.
  - by apply sublist_skip.
  - by apply sublist_cons.
Qed.

(** The rows that [dropna] keeps. *)
Lemma kept_below (df : DataFrame) (n : nat) :
  Forall (λ k, (k < n)%nat)
    (filter (λ i, all_missing df i = false) (seq 0 n)).
Proof.
  apply list.Forall_forall. intros k [_ Hk]%list_elem_of_filter.
  apply elem_of_seq in Hk. lia.
Qed.

Lemma wf_dropna_all (df : DataFrame) : wf_frame df → wf_frame (dropna_all df).
Proof.
  intros Hwf c s. unfold dropna_all. cbn [columns index]. rewrite lookup_fmap.
  destruct (columns df !! c) as [x|] eqn:Ex; [|done]. cbn. intros [= <-].
  rewrite !length_take_rows; [done|apply kept_below|].
  rewrite (Hwf _ _ Ex). apply kept_below.
Qed.

Lemma index_fill_prices (cols : list string) (df : DataFrame) :
  index (foldl fill_price df cols) = index df.
Proof.
  revert df. induction cols as [|col cols IH]; intros df; [done|].
  cbn [foldl]. rewrite IH. unfold fill_price. by destruct (columns df !! col).
Qed.

Lemma lookup_fill_price (df : DataFrame) (col c : string) :
  columns (fill_price df col) !! c
  = if decide (c = col) then ffill <$> columns df !! c else columns df !! c.
Proof.
  unfold fill_price. destruct (decide (c = col)) as [->|Hne].
  - destruct (columns df !! col) as [s|] eqn:E; cbn [setitem columns].
    + by rewrite lookup_insert_eq.
    + by rewrite E.
  - destruct (columns df !! col) as [s|]; cbn [setitem columns]; [|done].
    by rewrite lookup_insert_ne.
Qed.

Lemma lookup_fill_prices (cols : list string) (df : DataFrame) (c : string) :
  NoDup cols →
  columns (foldl fill_price df cols) !! c
  = if decide (c ∈ cols) then ffill <$> columns df !! c else columns df !! c.
Proof.
  intros Hnd. revert df. induction Hnd as [|col cols Hcol _ IH]; intros df.
  - cbn. by rewrite decide_False by apply not_elem_of_nil.
  - cbn [foldl]. rewrite IH, lookup_fill_price.
    destruct (decide (c = col)) as [->|Hne].
    + rewrite decide_False by done.
      by rewrite decide_True by (apply elem_of_cons; by left).
    + destruct (decide (c ∈ cols)) as [Hin|Hout].
      * by rewrite decide_True by (apply elem_of_cons; by right).
      * rewrite decide_False; [done|]. by intros [?|?]%elem_of_cons.
Qed.

Lemma price_cols_NoDup : NoDup price_cols.
Proof. apply (bool_decide_unpack _). by vm_compute. Qed.

Lemma index_clean_data (df : DataFrame) :
  index (clean_data df) = index (dropna_all df).
Proof.
  unfold clean_data. destruct (columns _ !! "Volume"); cbn [setitem index];
    apply index_fill_prices.
Qed.

Lemma volume_not_price : "Volume" ∉ price_cols.
Proof. apply (bool_decide_unpack _). by vm_compute. Qed.

(** [clean_data], column by column. *)
Lemma lookup_clean_data (df : DataFrame) (c : string) :
  columns (clean_data df) !! c
  = cleaned_column c <$> columns (dropna_all df) !! c.
Proof.
  unfold clean_data, cleaned_column.
  pose proof (lookup_fill_prices price_cols (dropna_all df)) as Hfill.
  pose proof (Hfill "Volume" price_cols_NoDup) as Hvol.
  destruct (decide ("Volume" ∈ price_cols)) as [Hin|_];
    [by destruct volume_not_price|].
  rewrite Hvol.
  destruct (columns (dropna_all df) !! "Volume") as [v|] eqn:Ev;
    cbn [setitem columns].
  - destruct (decide (c = "Volume")) as [->|Hne].
    + rewrite lookup_insert_eq, Ev. cbn.
      destruct (decide ("Volume" ∈ price_cols)) as [Hin|_];
        [by destruct volume_not_price|done].
    + rewrite lookup_insert_ne by done.
      rewrite Hfill by apply price_cols_NoDup.
      destruct (decide (c ∈ price_cols)); [done|].
      by destruct (columns (dropna_all df) !! c).
  - rewrite Hfill by apply price_cols_NoDup.
    destruct (decide (c ∈ price_cols)); [done|].
    destruct (decide (c = "Volume")) as [->|Hne].
    + by rewrite Ev.
    + by destruct (columns (dropna_all df) !! c).
Qed.

Lemma length_cleaned_column (c : string) (s : Series) :
  length (cleaned_column c s) = length s.
Proof.
  unfold cleaned_column, ffill, fillna.
  destruct (decide _); [apply length_ffill_from|].
  destruct (decide _); [apply length_fmap|done].
Qed.

Lemma ffill_from_filled (last : float) (s : Series) :
  isnan last = false → Forall (λ x, isnan x = false) (ffill_from last s).
Proof.
  revert last. induction s as [|x s IH]; intros last Hlast; [done|].
  cbn [ffill_from]. destruct (isnan x) eqn:Ex; constructor; auto.
Qed.

(** After forward filling, no entry is missing after one that has a value. *)
Lemma ffill_from_gap_free (last : float) (s : Series) :
  gap_free (ffill_from last s).
Proof.
  revert last. induction s as [|x0 s IH]; intros last i j x Hi Hx Hij Hj; [done|].
  cbn [ffill_from] in *.
  set (y0 := if isnan x0 then last else x0) in *.
  destruct i as [|i].
  - injection Hi as ->. destruct j as [|j]; [by exists x|].
    change ((?a :: ?l) !! S j) with (l !! j).
    cbn [length] in Hj. rewrite length_ffill_from in Hj.
    destruct (lookup_lt_is_Some_2 (ffill_from x s) j) as [y Hy].
    { rewrite length_ffill_from. lia. }
    exists y. split; [done|].
    exact (Forall_lookup_1 _ _ _ _ (ffill_from_filled x s Hx) Hy).
  - destruct j as [|j]; [lia|].
    change ((?a :: ?l) !! S j) with (l !! j).
    change ((?a :: ?l) !! S i) with (l !! i) in Hi.
    cbn [length] in Hj. apply (IH y0 i j x); [done|done|lia|lia].
Qed.

Lemma cleaned_column_keeps (c : string) (s : Series) (i : nat) (v : float) :
  s !! i = Some v → isnan v = false → cleaned_column c s !! i = Some v.
Proof.
  intros Hv Hnan. unfold cleaned_column.
  destruct (decide _); [by apply ffill_from_lookup_value|].
  destruct (decide _); [|done].
  unfold fillna. by rewrite list_lookup_fmap, Hv; cbn; rewrite Hnan.
Qed.

Lemma ffill_from_idempotent (last : float) (s : Series) :
  ffill_from last (ffill_from last s) = ffill_from last s.
Proof.
  revert last. induction s as [|x s IH]; intros last; [done|].
  cbn [ffill_from]. destruct (isnan x) eqn:Ex.
  - destruct (isnan last); by rewrite IH.
  - by rewrite Ex, IH.
Qed.

Lemma cleaned_column_idempotent (c : string) (s : Series) :
  cleaned_column c (cleaned_column c s) = cleaned_column c s.
Proof.
  unfold cleaned_column.
  destruct (decide _); [apply ffill_from_idempotent|].
  destruct (decide _); [|done].
  unfold fillna. rewrite <- list_fmap_compose. apply list_fmap_ext.
  intros _ x _. cbn. by destruct (isnan x) eqn:Ex; [|rewrite Ex].
Qed.

Lemma frame_eq (d1 d2 : DataFrame) :
  index d1 = index d2 → (∀ c, columns d1 !! c = columns d2 !! c) → d1 = d2.
Proof.
  destruct d1 as [i1 c1], d2 as [i2 c2]. cbn. intros -> H. f_equal.
  by apply map_eq.
Qed.

Lemma filter_all {A} (P : A → Prop) `{!∀ x, Decision (P x)} (l : list A) :
  Forall P l → filter P l = l.
Proof.
  induction 1 as [|x l Hx _ IH]; [done|].
  by rewrite filter_cons_True, IH.
Qed.

(** [dropna] leaves a frame alone in which every row holds a value. *)
Lemma dropna_all_id (d : DataFrame) :
  wf_frame d →
  (∀ i, (i < length (index d))%nat → all_missing d i = false) →
  dropna_all d = d.
Proof.
  intros Hwf Hrows. unfold dropna_all.
  rewrite filter_all by (apply Forall_seq; intros; apply Hrows; lia).
  apply frame_eq; cbn [index columns]; [apply take_rows_seq|].
  intros c. rewrite lookup_fmap.
  destruct (columns d !! c) as [s|] eqn:E; [|done]. cbn.
  by rewrite <- (Hwf _ _ E), take_rows_seq.
Qed.

(** Every row of a cleaned frame holds a value. *)
Lemma clean_data_rows (df : DataFrame) (i : nat) :
  wf_frame df →
  (i < length (index (clean_data df)))%nat →
  all_missing (clean_data df) i = false.
Proof.
  intros Hwf. rewrite index_clean_data. unfold dropna_all at 1. cbn [index].
  set (keep := filter (λ i, all_missing df i = false) (seq 0 (length (index df)))).
  pose proof (kept_below df (length (index df))) as Hkeep. fold keep in Hkeep.
  rewrite length_take_rows by done. intros Hi.
  destruct (lookup_lt_is_Some_2 keep i Hi) as [k Hk].
  assert (all_missing df k = false) as Hrow.
  { apply list_elem_of_lookup_2 in Hk. unfold keep in Hk.
    by apply list_elem_of_filter in Hk as [? _]. }
  unfold all_missing in Hrow. apply bool_decide_eq_false in Hrow.
  apply map_not_Forall in Hrow; [|apply _].
  destruct Hrow as (c & s & Hc & Hs).
  destruct (s !! k) as [v|] eqn:Ev; [|done]. cbn in Hs.
  assert (isnan v = false) as Hv by (by destruct (isnan v)).
  unfold all_missing. apply bool_decide_eq_false. intros Hall.
  specialize (Hall c (cleaned_column c (take_rows keep s))).
  rewrite lookup_clean_data in Hall. unfold dropna_all in Hall.
  cbn [columns] in Hall. fold keep in Hall. rewrite lookup_fmap, Hc in Hall.
  specialize (Hall eq_refl).
  rewrite (cleaned_column_keeps c _ i v) in Hall; [cbn in Hall; congruence| |done].
  rewrite (take_rows_lookup keep s i k); [done| |done].
  by rewrite (Hwf _ _ Hc).
Qed.

Lemma wf_clean_data (df : DataFrame) : wf_frame df → wf_frame (clean_data df).
Proof.
  intros Hwf c s. rewrite lookup_clean_data, index_clean_data.
  destruct (columns (dropna_all df) !! c) as [x|] eqn:Ex; [|done].
  cbn. intros [= <-]. rewrite length_cleaned_column.
  by apply (wf_dropna_all df Hwf c).
Qed.

Lemma gappy_frame_wf : wf_frame Sample.gappy_frame.
Proof.
  intros c s. unfold Sample.gappy_frame. cbn [columns index]. intros Hc.
  apply lookup_insert_Some in Hc as [[_ <-]|[_ Hc]]; [done|].
  by apply lookup_singleton_Some in Hc as [_ <-].
Qed.

(** X22. What [clean_data] guarantees for a well-formed frame: the result
    is well-formed, has the same columns and a sub-sequence of the rows;
    its Volume column holds no missing value; in each of its price
    columns no missing value follows an entry that has a value (missing
    values at the head of a price column remain); every other column is
    only cut down to the rows kept. *)
Theorem clean_data_no_gaps (df : DataFrame) :
  wf_frame df →
  let out := clean_data df in
  wf_frame out ∧
  dom (columns out) = dom (columns df) ∧
  index out `sublist_of` index df ∧
  (∀ s, columns out !! "Volume" = Some s → Forall (λ x, isnan x = false) s) ∧
  (∀ c s, c ∈ price_cols → columns out !! c = Some s → gap_free s) ∧
  (∀ c s, c ∉ price_cols → c ≠ "Volume" → columns out !! c = Some s →
     ∃ s0, columns df !! c = Some s0 ∧ s `sublist_of` s0).
Proof.
  intros Hwf out. subst out.
  split; [by apply wf_clean_data|]. split; [|split; [|split; [|split]]].
  - apply set_eq. intros c. rewrite !elem_of_dom, lookup_clean_data.
    unfold dropna_all. cbn [columns]. by rewrite lookup_fmap, !fmap_is_Some.
  - rewrite index_clean_data. unfold dropna_all. cbn [index].
    rewrite <- (take_rows_seq (index df)) at 3.
    apply omap_sublist, sublist_filter.
  - intros s. rewrite lookup_clean_data.
    destruct (columns (dropna_all df) !! "Volume") as [x|]; [|done].
    cbn. intros [= <-]. unfold cleaned_column.
    destruct (decide ("Volume" ∈ price_cols)) as [Hin|_];
      [by destruct volume_not_price|].
    rewrite decide_True by done. unfold fillna.
    apply Forall_fmap, list.Forall_forall. intros y _. cbn.
    by destruct (isnan y) eqn:Ey.
  - intros c s Hc. rewrite lookup_clean_data.
    destruct (columns (dropna_all df) !! c) as [x|]; [|done].
    cbn. intros [= <-]. unfold cleaned_column. rewrite decide_True by done.
    apply ffill_from_gap_free.
  - intros c s Hc Hv. rewrite lookup_clean_data. unfold dropna_all.
    cbn [columns]. rewrite lookup_fmap.
    destruct (columns df !! c) as [s0|] eqn:E0; [|done].
    cbn. intros [= <-]. exists s0. split; [done|].
    unfold cleaned_column. rewrite !decide_False by done.
    rewrite <- (take_rows_seq s0) at 2. rewrite (Hwf _ _ E0).
    apply omap_sublist, sublist_filter.
Qed.

Lemma clean_data_no_gaps_witness :
  wf_frame (clean_data Sample.gappy_frame) ∧
  index (clean_data Sample.gappy_frame) `sublist_of` index Sample.gappy_frame.
Proof.
  destruct (clean_data_no_gaps Sample.gappy_frame gappy_frame_wf)
    as (H1 & _ & H3 & _).
  by split.
Defined.

(** X23. Cleaning is idempotent: cleaning a cleaned frame changes
    nothing. *)
Theorem clean_data_idempotent (df : DataFrame) :
  wf_frame df → clean_data (clean_data df) = clean_data df.
Proof.
  intros Hwf.
  assert (dropna_all (clean_data df) = clean_data df) as Hid.
  { apply dropna_all_id; [by apply wf_clean_data|].
    intros i. by apply clean_data_rows. }
  apply frame_eq.
  - by rewrite index_clean_data, Hid.
  - intros c. rewrite lookup_clean_data, Hid, lookup_clean_data.
    destruct (columns (dropna_all df) !! c) as [s|]; [|done].
    cbn. by rewrite cleaned_column_idempotent.
Qed.

Lemma clean_data_idempotent_witness :
  clean_data (clean_data Sample.gappy_frame) = clean_data Sample.gappy_frame.
Proof. exact (clean_data_idempotent Sample.gappy_frame gappy_frame_wf). Defined.

(** The cleaned sample: the empty third day is gone, the volume gap is
    zero, the missing close of the first day is still missing. *)
Example clean_data_sample :
  clean_data Sample.gappy_frame
  = {| index := [1; 2; 4];
       columns := {[ "Close" := [NaN; of_Z 5; of_Z 7];
                     "Volume" := [of_Z 10; of_Z 0; of_Z 30] ]} |}.
Proof.
  apply frame_eq; cbn [index columns]; [by vm_compute|].
  intros c. by f_equal.
Qed.

End Cleaning.

(* ===================================================================== *)
(** * Volatility, Sharpe ratio and Bollinger bands *)
(* ===================================================================== *)

Section VolatilityFacts.

Import Volatility TechnicalIndicators Notions.

#[local] Open Scope Qc_scope.

Lemma Qc_square_nonneg (x : Qc) : 0 ≤ x * x.
Proof.
  destruct (Qclt_le_dec x 0) as [Hneg|Hpos].
  - replace (x * x) with ((- x) * (- x)) by ring.
    apply Qcmult_nonneg; by apply Qcopp_nonneg, Qclt_le_weak.
  - by apply Qcmult_nonneg.
Qed.

(** A rolling variance is missing or a number that is not negative. *)
Lemma var_at_cases (r : Rolling) (i : nat) :
  var_at r i = NaN ∨ ∃ q, var_at r i = Fin q ∧ 0 ≤ q.
Proof.
  unfold var_at. destruct (_ && _); [|by left]. right.
  eexists. split; [reflexivity|].
  apply Qcmult_nonneg; [|apply Qcinv_nonneg, Qc_of_nat_nonneg].
  apply Qc_sum_nonneg, Forall_fmap, list.Forall_forall. intros x _.
  apply Qc_square_nonneg.
Qed.

(** Where the rolling variance is a number, so is the rolling mean. *)
Lemma var_at_mean_at (r : Rolling) (i : nat) (q : Qc) :
  var_at r i = Fin q → ∃ m, mean_at r i = Fin m.
Proof.
  unfold var_at, mean_at.
  destruct (min_periods r <=? _)%nat; [|done]. cbn [andb].
  destruct (Nat.ltb_spec 1 (length (omap observation (prep_values (window_at r i)))))
    as [Hn|Hn]; [|done].
  intros _. destruct (Nat.ltb_spec 0
    (length (omap observation (prep_values (window_at r i))))); [eauto|lia].
Qed.

Lemma length_observations (s : Series) (w i : nat) :
  (length (omap observation
             (prep_values (window_at {| obj := s; window := w; min_periods := w |} i)))
   ≤ Nat.min w (S i))%nat.
Proof.
  eapply Nat.le_trans; [apply length_omap_le|].
  unfold prep_values, window_at. cbn [obj window].
  rewrite length_fmap, length_take. lia.
Qed.

(** There is no variance before the window is complete, nor for a
    window of fewer than two entries. *)
Lemma var_at_warm_up (s : Series) (w i : nat) :
  (S i < w)%nat ∨ (w ≤ 1)%nat →
  var_at {| obj := s; window := w; min_periods := w |} i = NaN.
Proof.
  intros Hw. unfold var_at. cbn [min_periods].
  pose proof (length_observations s w i) as Hlen. revert Hlen.
  generalize (length (omap observation
    (prep_values (window_at {| obj := s; window := w; min_periods := w |} i)))).
  intros n Hlen.
  destruct (Nat.leb_spec w n); [|done].
  destruct (Nat.ltb_spec 1 n); [lia|done].
Qed.

Lemma zsqrt_cases (sqrt : float → float) (r : Rolling) (i : nat) :
  sqrt NaN = NaN →
  (∀ q, 0 ≤ q → ∃ v, sqrt (Fin q) = Fin v ∧ 0 ≤ v) →
  (var_at r i = NaN ∧ zsqrt sqrt (var_at r i) = NaN) ∨
  (∃ q v, var_at r i = Fin q ∧ zsqrt sqrt (var_at r i) = Fin v ∧ 0 ≤ v).
Proof.
  intros Hnan Hsqrt. destruct (var_at_cases r i) as [E | (q & E & Hq)]; rewrite E.
  - left. by unfold zsqrt.
  - right. destruct (Hsqrt q Hq) as (v & Ev & Hv). exists q, v.
    split; [done|]. split; [|done].
    unfold zsqrt, Float.ltb, of_Z. rewrite Qc_of_Z_0.
    rewrite bool_decide_eq_false_2; [done|]. by apply Qcle_not_lt.
Qed.

Lemma std_lookup (sqrt : float → float) (r : Rolling) (i : nat) :
  (i < length (obj r))%nat →
  roll_std sqrt r !! i = Some (zsqrt sqrt (var_at r i)).
Proof.
  intros Hi. unfold roll_std. by rewrite list_lookup_fmap, lookup_seq_lt.
Qed.

Lemma std_ok (sqrt : float → float) (r : Rolling) :
  obj r = [] ∨ (Z.of_nat (window r) < 2 ^ 63)%Z →
  std sqrt r = Ok (roll_std sqrt r).
Proof.
  intros H. pose proof (mean_ok r H) as E. unfold mean in E. unfold std.
  by destruct (window_bounds r).
Qed.

Lemma mean_lookup (r : Rolling) (i : nat) :
  (i < length (obj r))%nat → roll_mean r !! i = Some (mean_at r i).
Proof.
  intros Hi. unfold roll_mean. by rewrite list_lookup_fmap, lookup_seq_lt.
Qed.

Lemma length_std (sqrt : float → float) (r : Rolling) :
  length (roll_std sqrt r) = length (obj r).
Proof. unfold roll_std. by rewrite length_fmap, length_seq. Qed.

(** With a window of one entry the rolling mean is the series itself,
    without its infinities. *)
Lemma mean_window_1 (s : Series) :
  roll_mean {| obj := s; window := 1; min_periods := 1 |} = prep_values s.
Proof.
  apply mean_pointwise.
  - unfold prep_values. by rewrite length_fmap.
  - intros i x Hx. cbn [obj] in Hx. unfold prep_values at 1.
    rewrite list_lookup_fmap, Hx. cbn [fmap option_fmap option_map]. f_equal.
    unfold mean_at, window_at. cbn [obj window min_periods].
    replace (S i - (S i - 1))%nat with 1%nat by lia.
    replace (S i - 1)%nat with i by lia.
    rewrite (drop_S _ _ _ Hx). cbn [take].
    destruct x as [q| | |]; try done.
    change (Fin q = Fin (Qc_sum [q] / Qc_of_Z 1)). f_equal.
    rewrite Qc_sum_cons, Qc_of_Z_1. change (Qc_sum []) with 0%Qc. by field.
Qed.

(** X24. The Sharpe ratio of a series with fewer than two returns that
    are not missing (an empty series and a single return included) is
    nan: the volatility is missing, a missing value does not compare
    equal to 0, so the guard against a zero volatility lets it through.
    This holds for every square root that maps nan to nan. *)
Theorem sharpe_ratio_few_observations
    (sqrt : float → float) (returns : Series) (risk_free_rate : float) :
  sqrt NaN = NaN →
  (length (valid returns) ≤ 1)%nat →
  sharpe_ratio sqrt returns risk_free_rate = BaseStrategy.Float_ NaN.
Proof.
  intros Hnan Hfew. unfold sharpe_ratio, series_std, series_var.
  destruct (Nat.leb_spec (length (valid returns)) 1) as [_|?]; [|lia].
  rewrite Hnan. cbn [Float.mul Float.neqb Float.eqb isnan negb andb].
  f_equal. by destruct (_ - _)%float.
Qed.

Lemma sharpe_ratio_few_observations_witness :
  sharpe_ratio (λ x, x) [NaN; of_Z 3; NaN] (of_Z 0) = BaseStrategy.Float_ NaN.
Proof.
  apply (sharpe_ratio_few_observations (λ x, x)); [reflexivity|].
  vm_compute. lia.
Defined.

(** X25. The warm-up of the Bollinger bands, for a window
    [1 <= W < 2^63] and any series and width: the three bands are as
    long as the prices; before position [W - 1] all three are missing;
    for [W = 1] the upper and the lower band are missing at every
    position, while the middle band is the price series (with its
    infinities missing): a sample deviation needs two observations.
    This holds for every square root that maps nan to nan. *)
Theorem bollinger_bands_warm_up
    (sqrt : float → float) (prices : Series) (W : Z) (num_std : float) (i : nat) :
  sqrt NaN = NaN →
  (1 ≤ W < 2 ^ 63)%Z → (i < length prices)%nat →
  ∃ middle upper lower : Series,
    bollinger_bands sqrt prices (VInt W) num_std
      = Ok {[ "middle" := middle; "upper" := upper; "lower" := lower ]} ∧
    length middle = length prices ∧ length upper = length prices ∧
    length lower = length prices ∧
    ((Z.of_nat i < W - 1)%Z →
       middle !! i = Some NaN ∧ upper !! i = Some NaN ∧ lower !! i = Some NaN) ∧
    (W = 1%Z →
       middle = prep_values prices ∧
       upper !! i = Some NaN ∧ lower !! i = Some NaN).
Proof.
  intros Hnan HW Hi. unfold bollinger_bands.
  rewrite !rolling_ok by lia. cbn [mbind result_bind].
  set (r := {| obj := prices; window := Z.to_nat W; min_periods := Z.to_nat W |}).
  rewrite (mean_ok r), (std_ok sqrt r) by (right; unfold r; cbn [window]; lia).
  cbn [mbind result_bind mret result_ret].
  set (width := (λ x, x * num_std)%float <$> roll_std sqrt r).
  exists (roll_mean r), (zip_with Float.add (roll_mean r) width),
    (zip_with Float.sub (roll_mean r) width).
  split; [done|].
  assert (length width = length prices) as Hlw.
  { unfold width. by rewrite length_fmap, length_std. }
  assert (length (roll_mean r) = length prices) as Hlm by (by rewrite length_mean).
  split; [done|]. split; [rewrite length_zip_with_same; congruence|].
  split; [rewrite length_zip_with_same; congruence|].
  assert (width !! i = Some (zsqrt sqrt (var_at r i) * num_std)%float) as Hwi.
  { unfold width. by rewrite list_lookup_fmap, std_lookup. }
  assert ((Z.of_nat i < W - 1)%Z ∨ W = 1%Z →
          zip_with Float.add (roll_mean r) width !! i = Some NaN ∧
          zip_with Float.sub (roll_mean r) width !! i = Some NaN) as Houter.
  { intros Hwarm. rewrite !lookup_zip_with, (mean_lookup r i Hi), Hwi.
    cbn [mbind option_bind]. unfold r at 2 4.
    rewrite (var_at_warm_up prices (Z.to_nat W) i) by lia.
    unfold zsqrt. cbn [Float.ltb]. rewrite Hnan. by destruct (mean_at r i). }
  split.
  - intros Hwarm. split; [|by apply Houter; left].
    rewrite (mean_lookup r i Hi). f_equal. unfold r.
    apply mean_warm_up. lia.
  - intros ->. split; [apply mean_window_1|]. apply Houter. by right.
Qed.

Lemma bollinger_bands_warm_up_witness :
  ∃ middle upper lower : Series,
    bollinger_bands (λ x, x) [of_Z 1; of_Z 3; of_Z 5] (VInt 2) (of_Z 2)
      = Ok {[ "middle" := middle; "upper" := upper; "lower" := lower ]} ∧
    length middle = 3%nat.
Proof.
  destruct (bollinger_bands_warm_up (λ x, x) [of_Z 1; of_Z 3; of_Z 5] 2 (of_Z 2) 1)
    as (m & u & l & E & L & _); [reflexivity|lia|cbn; lia|].
  exists m, u, l. split; [exact E|exact L].
Defined.

(** X26. Rolling volatility, for a window [0 <= W < 2^63] and any
    series: the result is as long as the input and no entry is negative;
    the entries before position [W - 1] are missing, and every entry is
    missing for a window of 0 or 1. This holds for every square root
    that maps nan to nan and a number that is not negative to one that
    is not negative. *)
Theorem rolling_volatility_cases
    (sqrt : float → float) (returns : Series) (W : Z) (i : nat) :
  sqrt NaN = NaN →
  (∀ q, 0 ≤ q → ∃ v, sqrt (Fin q) = Fin v ∧ 0 ≤ v) →
  (0 ≤ W < 2 ^ 63)%Z → (i < length returns)%nat →
  ∃ (out : Series) (y : float),
    rolling_volatility sqrt returns (VInt W) = Ok out ∧
    length out = length returns ∧
    out !! i = Some y ∧
    Float.ltb y (of_Z 0) = false ∧
    ((Z.of_nat i < W - 1)%Z ∨ (W ≤ 1)%Z → y = NaN).
Proof.
  intros Hnan Hsqrt HW Hi. unfold rolling_volatility.
  rewrite rolling_ok by lia. cbn [mbind result_bind].
  rewrite std_ok by (right; cbn [window]; lia).
  cbn [mbind result_bind mret result_ret].
  eexists. eexists. split; [reflexivity|].
  split; [by rewrite length_fmap, length_std|].
  rewrite list_lookup_fmap, std_lookup by done.
  cbn [fmap option_fmap option_map]. split; [reflexivity|].
  destruct (Hsqrt (Qc_of_Z 252) ltac:(done)) as (a & Ea & Ha).
  unfold of_Z at 1 3. rewrite Ea. split.
  - destruct (zsqrt_cases sqrt
                {| obj := returns; window := Z.to_nat W; min_periods := Z.to_nat W |}
                i Hnan Hsqrt) as [[_ ->] | (q & v & _ & -> & Hv)]; [done|].
    cbn [Float.mul Float.ltb]. unfold of_Z. rewrite Qc_of_Z_0.
    apply bool_decide_eq_false_2, Qcle_not_lt. by apply Qcmult_nonneg.
  - intros Hwarm. rewrite var_at_warm_up by lia.
    unfold zsqrt. cbn [Float.ltb]. by rewrite Hnan.
Qed.

Lemma rolling_volatility_cases_witness :
  ∃ out : Series,
    rolling_volatility (λ x, x) [of_Z 1; NaN; of_Z 5] (VInt 1) = Ok out ∧
    out !! 2%nat = Some NaN.
Proof.
  destruct (rolling_volatility_cases (λ x, x) [of_Z 1; NaN; of_Z 5] 1 2)
    as (out & y & E & _ & Hy & _ & H);
    [reflexivity|intros q Hq; by exists q|lia|cbn; lia|].
  exists out. split; [exact E|]. rewrite Hy. f_equal. apply H. right. lia.
Defined.

End VolatilityFacts.

(* ===================================================================== *)
(** * Degenerate spans, and frames that are clean already *)
(* ===================================================================== *)

Section Degenerate.

Import TechnicalIndicators DataProcessor Notions.

#[local] Open Scope Qc_scope.

(** With a centre of mass of 0 the old average carries no weight: one
    iteration replaces it by the entry, or keeps it at a missing entry. *)
Lemma ewm_step_span_1 (e : ExponentialMovingWindow) (st : ewm_state) (cur : float) :
  adjust e = true → ignore_na e = false → com e = 0 →
  ewm_invariant (λ _, True) st →
  (cur = NaN ∨ ∃ q, cur = Fin q) →
  weighted (ewm_step e st cur) = if isnan cur then weighted st else cur.
Proof.
  intros Ha Hi Hc [HW Hst] Hcur. unfold ewm_step. rewrite Ha, Hi, Hc.
  destruct st as [w W n]. cbn [weighted old_wt nobs] in *.
  destruct w as [q| | |]; try done; destruct Hcur as [-> | [c ->]];
    cbn [isnan negb orb andb weighted]; try done.
  replace (W * (1 - 1 / (1 + 0))) with 0 by (by field).
  destruct (Float.neqb (Fin q) (Fin c)) eqn:E.
  - cbn [Float.mul Float.add]. rewrite div_Fin by done. f_equal. by field.
  - unfold Float.neqb, Float.eqb in E. cbn [isnan negb andb] in E.
    apply negb_false_iff, bool_decide_eq_true in E. done.
Qed.

Lemma ewm_loop_span_1 (e : ExponentialMovingWindow) (vals : Series) (st : ewm_state) :
  adjust e = true → ignore_na e = false → com e = 0 →
  ewm_invariant (λ _, True) st →
  Forall (λ x, x = NaN ∨ ∃ q, x = Fin q ∧ True) vals →
  ewm_loop e 1 st vals = ffill_from (weighted st) vals.
Proof.
  intros Ha Hi Hc Hst Hvals. revert st Hst.
  induction Hvals as [|cur vals Hcur _ IH]; intros st Hst; [done|].
  assert (0 ≤ 1 - 1 / (1 + com e)) as Hb by (by rewrite Hc).
  destruct (ewm_step_invariant (λ _, True) e st cur Ha Hi Hb ltac:(done) Hst Hcur)
    as [Hst' _].
  cbn [ewm_loop ffill_from].
  rewrite (ewm_output_invariant _ _ Hst'), (IH _ Hst').
  rewrite (ewm_step_span_1 e st cur Ha Hi Hc Hst);
    [done|destruct Hcur as [->|(q & -> & _)]; eauto].
Qed.

(** X27. The degenerate spans of the exponential moving average: a span
    below 1, or no span, raises the [ValueError] of [ewm]; with a span of
    1 the old average carries no weight, and the result is the series
    itself with its infinities removed and every missing entry replaced
    by the last number before it. *)
Theorem ema_degenerate_spans (prices : Series) :
  (∀ sp : Z, (sp < 1)%Z →
     ema prices (VInt sp) = Raise (ValueError "span must satisfy: span >= 1")) ∧
  ema prices VNone
    = Raise (ValueError "Must pass one of comass, span, halflife, or alpha") ∧
  ema prices (VInt 1) = Ok (ffill (prep_values prices)).
Proof.
  split; [|split; [done|]].
  - intros sp Hsp. unfold ema, ewm. by destruct (Z.ltb_spec sp 1); [|lia].
  - unfold ema. rewrite ewm_ok by lia. cbn [mbind result_bind mret result_ret].
    f_equal. unfold ewm_mean. cbn [ewm_obj ewm_min_periods].
    pose proof (prep_values_cases (λ _, True) prices) as Hprep.
    specialize (Hprep ltac:(by apply list.Forall_forall)).
    destruct (prep_values prices) as [|x0 vals]; [done|].
    apply list.Forall_cons in Hprep as [Hx0 Hvals].
    change (Nat.max 0 1) with 1%nat.
    set (e := {| ewm_obj := prices; com := (Qc_of_Z 1 - 1) / 2;
                 ewm_min_periods := 0; adjust := true; ignore_na := false |}).
    assert (ewm_invariant (λ _, True)
              {| weighted := x0; old_wt := 1;
                 nobs := if isnan x0 then 0%nat else 1%nat |}) as Hst.
    { split; [done|]. cbn [weighted nobs].
      by destruct Hx0 as [-> | (q & -> & _)]. }
    rewrite (ewm_output_invariant _ _ Hst).
    rewrite (ewm_loop_span_1 e vals _ eq_refl eq_refl); [|by apply Qc_is_canon|done..].
    unfold ffill. cbn [ffill_from weighted].
    by destruct Hx0 as [-> | (q & -> & _)].
Qed.

(** Filling changes nothing in a series without a missing entry. *)
Lemma ffill_from_clean (last : float) (s : Series) :
  Forall (λ x, isnan x = false) s → ffill_from last s = s.
Proof.
  intros H. revert last. induction H as [|x s Hx _ IH]; intros last; [done|].
  cbn [ffill_from]. by rewrite Hx, IH.
Qed.

Lemma cleaned_column_clean (c : string) (s : Series) :
  Forall (λ x, isnan x = false) s → cleaned_column c s = s.
Proof.
  intros H. unfold cleaned_column.
  destruct (decide _); [by apply ffill_from_clean|].
  destruct (decide _); [|done].
  unfold fillna. rewrite <- (list_fmap_id s) at 2.
  apply Forall_fmap_ext_1. eapply list.Forall_impl; [exact H|].
  intros x Hx. cbn. by rewrite Hx.
Qed.

(** X28. A frame that is clean already: a well-formed frame without a
    missing entry is returned as it is, provided it has a column. A
    frame without any column loses all its rows: [dropna(how='all')]
    finds no value in any of them. *)
Theorem clean_data_clean_frame (df : DataFrame) :
  wf_frame df →
  (∀ c s, columns df !! c = Some s → Forall (λ x, isnan x = false) s) →
  (columns df ≠ ∅ → clean_data df = df) ∧
  (columns df = ∅ → clean_data df = {| index := []; columns := ∅ |}).
Proof.
  intros Hwf Hclean. split.
  - intros Hcols.
    assert (dropna_all df = df) as Hid.
    { apply dropna_all_id; [done|]. intros i Hi.
      apply map_choose in Hcols as (c & s & Hc).
      unfold all_missing. apply bool_decide_eq_false. intros Hall.
      specialize (Hall c s Hc). cbn in Hall.
      destruct (lookup_lt_is_Some_2 s i) as [x Hx]; [by rewrite (Hwf _ _ Hc)|].
      rewrite Hx in Hall. cbn in Hall.
      pose proof (Forall_lookup_1 _ _ _ _ (Hclean _ _ Hc) Hx) as Hnan.
      cbn in Hnan. congruence. }
    apply frame_eq.
    + by rewrite index_clean_data, Hid.
    + intros c. rewrite lookup_clean_data, Hid.
      destruct (columns df !! c) as [s|] eqn:E; [|done]. cbn.
      by rewrite (cleaned_column_clean c s (Hclean _ _ E)).
  - intros Hcols. apply frame_eq.
    + rewrite index_clean_data. unfold dropna_all. cbn [index].
      replace (filter _ _) with (@nil nat); [done|].
      symmetry. apply elem_of_nil_inv. intros i [Hrow _]%list_elem_of_filter.
      unfold all_missing in Hrow. apply bool_decide_eq_false in Hrow.
      apply Hrow. rewrite Hcols. apply map_Forall_empty.
    + intros c. rewrite lookup_clean_data. unfold dropna_all. cbn [columns].
      by rewrite Hcols, fmap_empty, lookup_empty.
Qed.

Lemma clean_data_clean_frame_witness :
  clean_data Sample.frame = Sample.frame.
Proof.
  refine (proj1 (clean_data_clean_frame Sample.frame _ _) _).
  - by apply ohlcv_wf.
  - intros c s Hc. unfold Sample.frame, Sample.ohlcv in Hc. cbn [columns] in Hc.
    repeat (apply lookup_insert_Some in Hc as [[_ <-]|[_ Hc]];
            [by apply (bool_decide_unpack _)|]).
    apply lookup_singleton_Some in Hc as [_ <-]. by apply (bool_decide_unpack _).
  - intros E. apply (f_equal (λ m : gmap string Series, m !! "Close")) in E.
    by vm_compute in E.
Defined.

End Degenerate.
